(** * Eros: chained errors, chain traversal, results and the recovery point

    A shallow embedding of the Go package [eros] (errors.go, result.go).

    Go pointers to [Error] are addresses into a heap of [Error] structs, so
    that pointer identity, aliasing and in-place mutation ([WithCause]) are
    modelled as the program has them.  Interface values of type [error] are
    a tagged union of the dynamic types the package can meet: a nil
    interface, a [*Error], an [Error] value, and values or pointers of
    foreign (non-eros) named types, described by what reflection and type
    assertions observe of them; what their methods and their [==] do is a
    parameter of the development.  Panics are an explicit outcome carrying
    the panic value; loops and the recursion of [WithCause] take fuel. *)

From Stdlib Require Import ZArith Lia.
From stdpp Require Import base option list strings pretty.

Open Scope Z_scope.

(** ** Types as reflection sees them *)

(** Addresses: a pointer is [None] (nil) or [Some] address. *)
Abbreviation addr := nat (only parsing).

(** reflect.Kind, the kinds the package meets. *)
Inductive kind :=
| KInvalid | KBool | KInt | KString | KStruct | KPtr | KMap | KSlice
| KChan | KFunc | KInterface | KUnsafePointer.

(** Method names with a fixed signature; [MOther] is any other method. *)
Inductive method :=
| MError | MUnwrap | MIs | MAs | MOther (name : string).

(** A foreign named type that is neither a pointer nor an interface:
    its kind, whether reflect.Type.Comparable holds, the methods declared
    with a value receiver and those declared with a pointer receiver. *)
Record ftype := mkFtype {
  fname : string;
  fkind : kind;
  fcomparable : bool;
  fmethods : list method;
  fptr_methods : list method
}.

#[global] Instance kind_eq_dec : EqDecision kind.
Proof. solve_decision. Defined.
#[global] Instance method_eq_dec : EqDecision method.
Proof. solve_decision. Defined.
#[global] Instance ftype_eq_dec : EqDecision ftype.
Proof. solve_decision. Defined.

(** The types of error-like values and of target slots. *)
Inductive gtype :=
| TError                      (* Error *)
| TPtrError                   (* *Error *)
| TNamed (t : ftype)          (* a foreign named type T *)
| TPtrNamed (t : ftype)       (* *T *)
| TIface (ms : list method).  (* an interface type, by its method set *)

#[global] Instance gtype_eq_dec : EqDecision gtype.
Proof. solve_decision. Defined.

(** ** Values *)

(** An interface value of type [error], and the struct [Error]
    (errors.go, type Error: msg, cause, next, count).  A value of a foreign
    type is known by its type and an identifier, and a foreign pointer by
    its type and address; [inner] is the error such a value holds in a
    field, if it wraps one. *)
Inductive error : Type :=
| nil_error
| PtrError (p : option addr)
| ValError (e : Error)
| ForeignVal (t : ftype) (id : nat) (inner : error)
| ForeignPtr (t : ftype) (p : option nat) (inner : error)
with Error : Type :=
| mkError (msg : string) (cause : error) (next : option addr) (count : Z).

Definition msg (e : Error) : string := let 'mkError m _ _ _ := e in m.
Definition cause (e : Error) : error := let 'mkError _ c _ _ := e in c.
Definition next (e : Error) : option addr := let 'mkError _ _ n _ := e in n.
Definition count (e : Error) : Z := let 'mkError _ _ _ k := e in k.

Definition set_next (n : option addr) (e : Error) : Error :=
  mkError (msg e) (cause e) n (count e).
Definition set_count (k : Z) (e : Error) : Error :=
  mkError (msg e) (cause e) (next e) k.

(** Values that are not error-like, as far as the package looks at them. *)
Inductive value :=
| VString (s : string)
| VInt (z : Z)
| VRef (k : kind) (referent : option nat).

(** A value of type interface{} (a panic value, what recover returns). *)
Inductive any :=
| AnyNil
| AnyErr (e : error)
| AnyVal (v : value).

(** The heap of [Error] structs and the store of other variables a target
    slot can point to. *)
Record memory := mkMemory {
  heap : list Error;
  vars : list error
}.

(** The second argument of [As], as reflection sees it. *)
Inductive target :=
| TargetNil
| TargetNonPtr (k : kind)
| TargetPtr (t : gtype) (loc : option addr).

(** ** Outcomes *)

Inductive fault := OutOfFuel | Dangling.

Inductive res (A : Type) : Type :=
| Done (a : A)
| Abort (v : any)
| Fault (f : fault).
Arguments Done {A} a.
Arguments Abort {A} v.
Arguments Fault {A} f.

#[global] Instance res_ret : MRet res := fun A a => Done a.
#[global] Instance res_bind : MBind res := fun A B f r =>
  match r with
  | Done a => f a
  | Abort v => Abort v
  | Fault x => Fault x
  end.

#[global] Instance res_fmap : FMap res := fun A B f r =>
  match r with
  | Done a => Done (f a)
  | Abort v => Abort v
  | Fault x => Fault x
  end.

(** Computations that read and write the memory and may panic. *)
Definition M (A : Type) : Type := memory -> res A * memory.

#[global] Instance M_ret : MRet M := fun A a m => (Done a, m).
#[global] Instance M_bind : MBind M := fun A B f c m =>
  match c m with
  | (Done a, m') => f a m'
  | (Abort v, m') => (Abort v, m')
  | (Fault x, m') => (Fault x, m')
  end.

Definition lift {A} (f : list Error -> res A) : M A :=
  fun m => (f (heap m), m).

Definition panic {A} (v : any) : M A := fun m => (Abort v, m).

Definition alloc (x : Error) : M addr :=
  fun m => (Done (length (heap m)), mkMemory (heap m ++ [x]) (vars m)).

Definition load (h : list Error) (p : addr) : res Error :=
  match h !! p with
  | Some x => Done x
  | None => Fault Dangling
  end.

Definition modify (p : addr) (f : Error -> Error) : M unit :=
  fun m =>
    match heap m !! p with
    | Some x => (Done tt, mkMemory (<[p := f x]> (heap m)) (vars m))
    | None => (Fault Dangling, m)
    end.

(** Go's int on a 64-bit platform. *)
Definition wrap64 (z : Z) : Z := (z + 2 ^ 63) mod 2 ^ 64 - 2 ^ 63.

(** ** Reflection *)

Definition Error_methods : list method :=
  [MOther "Count"; MError].
Definition PtrError_methods : list method :=
  [MOther "Count"; MError; MUnwrap; MOther "WithCause"].

Definition method_set (t : gtype) : list method :=
  match t with
  | TError => Error_methods
  | TPtrError => PtrError_methods
  | TNamed t => fmethods t
  | TPtrNamed t => fmethods t ++ fptr_methods t
  | TIface ms => ms
  end.

Definition has_method (t : gtype) (m : method) : bool :=
  bool_decide (m ∈ method_set t).

Definition Implements (t : gtype) (ms : list method) : bool :=
  forallb (has_method t) ms.

(** errors.go, [errorType]. *)
Definition errorType : list method := [MError].

Definition Kind (t : gtype) : kind :=
  match t with
  | TError => KStruct
  | TPtrError | TPtrNamed _ => KPtr
  | TNamed t => fkind t
  | TIface _ => KInterface
  end.

Definition Comparable (t : gtype) : bool :=
  match t with
  | TNamed t => fcomparable t
  | _ => true
  end.

Definition AssignableTo (v t : gtype) : bool :=
  bool_decide (v = t) ||
  match t with
  | TIface ms => Implements v ms
  | _ => false
  end.

(** reflect.TypeOf of an error value; [None] for the nil interface. *)
Definition TypeOf (e : error) : option gtype :=
  match e with
  | nil_error => None
  | PtrError _ => Some TPtrError
  | ValError _ => Some TError
  | ForeignVal t _ _ => Some (TNamed t)
  | ForeignPtr t _ _ => Some (TPtrNamed t)
  end.

(** A type assertion to an interface with the single method [m]. *)
Definition asserts (e : error) (m : method) : bool :=
  match TypeOf e with
  | Some t => has_method t m
  | None => false
  end.

Definition is_nil (e : error) : bool :=
  match e with nil_error => true | _ => false end.

(** The panic values of the runtime: [==] on two values of one dynamic type
    that is not comparable, and a read through a nil pointer (the runtime's
    memoryError), both of type runtime.errorString; and a value method
    called through a nil pointer, of type runtime.plainError.  Both types
    are string types. *)
Definition runtime_errorString : ftype :=
  mkFtype "runtime.errorString" KString true [MError; MOther "RuntimeError"] [].
Definition uncomparable_panic : any :=
  AnyErr (ForeignVal runtime_errorString 0 nil_error).
Definition memoryError : any :=
  AnyErr (ForeignVal runtime_errorString 1 nil_error).
Definition runtime_plainError : ftype :=
  mkFtype "runtime.plainError" KString true [MError; MOther "RuntimeError"] [].
Definition nil_dereference_panic : any :=
  AnyErr (ForeignVal runtime_plainError 0 nil_error).

(** The kinds reflect.Value.IsNil accepts. *)
Definition nilable (k : kind) : bool :=
  match k with
  | KChan | KFunc | KMap | KPtr | KUnsafePointer | KInterface | KSlice => true
  | _ => false
  end.

(** ** Capabilities of foreign types

    What the package cannot know of a foreign type: what its own methods
    do, and what [==] and reflection find in its values.
    [method_Unwrap x] is [x.Unwrap()], [method_Is x t] is [x.Is(t)] and
    [method_As x tgt] is [x.As(tgt)], which may write to the memory; each may
    return, panic or not return.  They are consulted only for a value whose
    method set has the method.  [value_eq t i j] is [==] on the values [i]
    and [j] of the comparable type [t]: it need not hold of a value and
    itself (a field holding NaN) and it may panic (an interface field
    holding a value that is not comparable).  [value_nil t i] tells whether
    the value [i] of a type [t] of a kind that can be nil (slice, map, func,
    chan) is nil. *)
Record Methods := mkMethods {
  method_Unwrap : error -> res error;
  method_Is : error -> error -> res bool;
  method_As : error -> target -> memory -> res bool * memory;
  value_eq : ftype -> nat -> nat -> res bool;
  value_nil : ftype -> nat -> bool
}.

Section Eros.

Context (ms : Methods).

(** [a == b] on interface values: identical dynamic types and equal
    values.  Pointers are compared by address, foreign values of one
    comparable type as the type has it, and struct fields in source order,
    stopping at the first that differs or panics. *)
Fixpoint iface_eq (a b : error) {struct a} : res bool :=
  match a, b with
  | nil_error, nil_error => Done true
  | PtrError p, PtrError q => Done (bool_decide (p = q))
  | ValError x, ValError y => Error_eq x y
  | ForeignVal t i _, ForeignVal t' j _ =>
      if bool_decide (t = t')
      then if fcomparable t then value_eq ms t i j
           else Abort uncomparable_panic
      else Done false
  | ForeignPtr t p _, ForeignPtr t' q _ =>
      Done (bool_decide (t = t') && bool_decide (p = q))
  | _, _ => Done false
  end
with Error_eq (x y : Error) {struct x} : res bool :=
  match x, y with
  | mkError m c n k, mkError m' c' n' k' =>
      if bool_decide (m = m') then
        match iface_eq c c' with
        | Done true => Done (bool_decide (n = n') && bool_decide (k = k'))
        | r => r
        end
      else Done false
  end.

Definition equal (a b : error) : res bool := iface_eq a b.

(** ** errors.go *)

(** [New]: a leaf error. *)
Definition New (message : string) : M addr :=
  alloc (mkError message nil_error None 0).

(** [Wrap]: wraps [err], also when it is nil. *)
Definition Wrap (err : error) (message : string) : M addr :=
  alloc (mkError message err None 1).

(** [func (s Error) Count() int]. *)
Definition Count (s : Error) : Z := count s.

(** [func (e *Error) Unwrap() error]. *)
Definition Error_Unwrap (h : list Error) (e : option addr) : res error :=
  match e with
  | Some p =>
      x ← load h p;
      match next x with
      | Some q => Done (PtrError (Some q))
      | None => Done (cause x)
      end
  | None => Done nil_error
  end.

(** [Unwrap]: the value's own Unwrap method when it has one. *)
Definition Unwrap (h : list Error) (err : error) : res error :=
  if asserts err MUnwrap then
    match err with
    | PtrError p => Error_Unwrap h p
    | ForeignVal _ _ _ | ForeignPtr _ _ _ => method_Unwrap ms err
    | _ => Done nil_error
    end
  else Done nil_error.

Definition ptr_is_nil (e : error) : bool :=
  match e with
  | PtrError None | ForeignPtr _ None _ => true
  | _ => false
  end.

(** reflect.Value.Elem().Interface() of a non-nil pointer. *)
Definition Elem (h : list Error) (e : error) : res error :=
  match e with
  | PtrError (Some p) => x ← load h p; Done (ValError x)
  | ForeignPtr t (Some i) inner => Done (ForeignVal t i inner)
  | _ => Done e
  end.

(** [dereference]: strips one level of pointer when the pointee is itself
    an error. *)
Definition dereference (h : list Error) (err : error) : res error :=
  match TypeOf err with
  | None => Done err
  | Some typ =>
      if bool_decide (Kind typ = KPtr) && negb (ptr_is_nil err) then
        e ← Elem h err;
        if asserts e MError then Done e else Done err
      else Done err
  end.

(** [CastOrWrap]. *)
Definition CastOrWrap (err : error) : M addr :=
  de ← lift (fun h => dereference h err);
  match de with
  | ValError e => alloc e
  | _ => Wrap err "cast to eros.Error"
  end.

(** The loop of [Is]. *)
Fixpoint Is_loop (n : nat) (h : list Error) (isComparable : bool)
    (err tgt : error) : res bool :=
  match n with
  | O => Fault OutOfFuel
  | S n =>
      c ← (if isComparable then equal err tgt else Done false);
      if c : bool then Done true
      else
        b ← (if asserts err MIs then method_Is ms err tgt else Done false);
        if b : bool then Done true
        else
          err' ← Unwrap h err;
          if is_nil err' then Done false
          else Is_loop n h isComparable err' tgt
  end.

(** [Is]. *)
Definition Is (n : nat) (h : list Error) (err tgt : error) : res bool :=
  match TypeOf tgt with
  | None => Done (is_nil err)
  | Some t => Is_loop n h (Comparable t) err tgt
  end.

(** [func (e *Error) WithCause(err error) *Error]. *)
Fixpoint WithCause (n : nat) (e : option addr) (err : error)
    : M (option addr) :=
  match n with
  | O => fun m => (Fault OutOfFuel, m)
  | S n =>
      match e with
      | None => v ← CastOrWrap err; mret (Some v)
      | Some p =>
          if is_nil err then mret e
          else
            b ← lift (fun h => Is n h (PtrError e) err);
            if b : bool then mret e
            else
              v ← CastOrWrap err;
              x ← lift (fun h => load h p);
              match next x with
              | Some q =>
                  r ← WithCause n (Some v) (PtrError (Some q));
                  modify p (set_next r)
              | None => modify p (set_next (Some v))
              end;;
              y ← lift (fun h => load h v);
              modify p (set_count (wrap64 (count y + 1)));;
              mret e
      end
  end.

(** Writes [de] to the slot [l] of type [t]: a slot of type [Error] is a
    cell of the heap (the target is a [*Error]), any other slot a variable
    of the store. *)
Definition set_slot (t : gtype) (l : addr) (de : error) : M unit :=
  fun m =>
    match t, de with
    | TError, ValError x =>
        if bool_decide (l < length (heap m))%nat
        then (Done tt, mkMemory (<[l := x]> (heap m)) (vars m))
        else (Fault Dangling, m)
    | TError, _ => (Fault Dangling, m)
    | _, _ =>
        if bool_decide (l < length (vars m))%nat
        then (Done tt, mkMemory (heap m) (<[l := de]> (vars m)))
        else (Fault Dangling, m)
    end.

Definition call_As (de : error) (tgt : target) : M bool :=
  method_As ms de tgt.

(** The loop of [As]; one unit of fuel per node visited. *)
Fixpoint As_loop (n : nat) (err : error) (tgt : target)
    (targetType : gtype) (l : addr) : M bool :=
  if is_nil err then mret false
  else
    match n with
    | O => fun m => (Fault OutOfFuel, m)
    | S n =>
        de ← lift (fun h => dereference h err);
        if match TypeOf de with
           | Some t => AssignableTo t targetType
           | None => false
           end
        then set_slot targetType l de;; mret true
        else
          b ← (if asserts de MAs then call_As de tgt else mret false);
          if b : bool then mret true
          else
            err' ← lift (fun h => Unwrap h err);
            As_loop n err' tgt targetType l
    end.

Definition panic_string {A} (s : string) : M A := panic (AnyVal (VString s)).

(** [As]. *)
Definition As (n : nat) (err : error) (tgt : target) : M bool :=
  match tgt with
  | TargetNil => panic_string "errors: target cannot be nil"
  | TargetNonPtr _ | TargetPtr _ None =>
      panic_string "errors: target must be a non-nil pointer"
  | TargetPtr targetType (Some l) =>
      if negb (bool_decide (Kind targetType = KInterface))
         && negb (Implements targetType errorType)
      then panic_string "errors: *target must be interface or implement error"
      else As_loop n err tgt targetType l
  end.

(** ** result.go *)

(** [Result[T]]: the (value, error) pair. *)
Record Result (T : Type) := mkResult {
  Value : T;
  Err : error
}.
Arguments mkResult {T} Value Err.
Arguments Value {T} r.
Arguments Err {T} r.

(** [Handler]: a caller's function on a [*Error]; it may use the memory
    and may itself panic. *)
Definition Handler := option addr -> M unit.

(** The memory together with the record of handler invocations, kept
    apart from the memory so that no handler can alter it. *)
Record world := mkWorld {
  mem : memory;
  calls : list (option addr)
}.

Definition W (A : Type) : Type := world -> res A * world.

#[global] Instance W_ret : MRet W := fun A a w => (Done a, w).
#[global] Instance W_bind : MBind W := fun A B f c w =>
  match c w with
  | (Done a, w') => f a w'
  | (Abort v, w') => (Abort v, w')
  | (Fault x, w') => (Fault x, w')
  end.

Definition liftM {A} (c : M A) : W A :=
  fun w => let '(r, m') := c (mem w) in (r, mkWorld m' (calls w)).

(** [handler(p)]: runs the handler and records the invocation. *)
Definition call (handler : Handler) (p : option addr) : W unit :=
  fun w =>
    let '(r, m') := handler p (mem w) in (r, mkWorld m' (calls w ++ [p])).

(** [func (r Result[T]) Check() T]. *)
Definition Result_Check {T} (r : Result T) : M T :=
  if negb (is_nil (Err r)) then
    p ← CastOrWrap (Err r); panic (AnyErr (PtrError (Some p)))
  else mret (Value r).

(** [func (r Result[T]) Handle(handler Handler) T]. *)
Definition Result_Handle {T} (r : Result T) (handler : Handler) : W T :=
  (if negb (is_nil (Err r)) then
     p ← liftM (CastOrWrap (Err r)); call handler (Some p)
   else mret tt);;
  mret (Value r).

(** [func Check(err error)]. *)
Definition Check (err : error) : M unit :=
  if negb (is_nil err) then
    p ← CastOrWrap err; panic (AnyErr (PtrError (Some p)))
  else mret tt.

(** reflect.ValueOf(val) for a value of the type parameter [T]: the kind
    reflection reports and whether the value holds no referent. *)
Record reflect_Value := mkValue {
  vkind : kind;
  vnil : bool
}.

Class Reflect (T : Type) := ValueOf : T -> reflect_Value.

Definition reflect_ValueError : ftype :=
  mkFtype "reflect.ValueError" KStruct true [] [MError].
Definition ValueError_panic : any :=
  AnyErr (ForeignPtr reflect_ValueError (Some 0%nat) nil_error).

(** reflect.Value.IsNil: panics unless the kind can be nil. *)
Definition IsNil (v : reflect_Value) : M bool :=
  match vkind v with
  | KChan | KFunc | KMap | KPtr | KUnsafePointer | KInterface | KSlice =>
      mret (vnil v)
  | _ => panic ValueError_panic
  end.

(** [func CheckNotNil[T any](val T, msg string) T]. *)
Definition CheckNotNil {T} `{Reflect T} (val : T) (message : string) : M T :=
  b ← IsNil (ValueOf val);
  if b : bool then p ← New message; panic (AnyErr (PtrError (Some p)))
  else mret val.

(** [func CheckVal[T any](val T, err error) T]. *)
Definition CheckVal {T} (val : T) (err : error) : M T :=
  Result_Check (mkResult val err).

(** [func Cast[T any](val T, err error) *Result[T]]. *)
Definition Cast {T} (val : T) (err : error) : Result T := mkResult val err.

(** The function [ErrorHandler(handler)] returns, given [r], what its call
    of recover() returned (nil when the scope is not panicking). *)
Definition ErrorHandler (handler : Handler) (r : any) : W unit :=
  match r with
  | AnyNil | AnyErr nil_error => mret tt
  | AnyErr e => p ← liftM (CastOrWrap e); call handler (Some p)
  | AnyVal _ => fun w => (Abort r, w)
  end.

(** [defer cleanup()] around [body], for a cleanup whose first action is
    recover(): the panic of the body, if any, stops there, and the scope
    ends as the cleanup ends.  A recovered scope yields no value. *)
Definition defer_recover {A} (cleanup : any -> W unit) (body : W A)
    : W (option A) :=
  fun w =>
    match body w with
    | (Done a, w') => (_ ← cleanup AnyNil; mret (Some a)) w'
    | (Abort v, w') => (_ ← cleanup v; mret None) w'
    | (Fault f, w') => (Fault f, w')
    end.

End Eros.

Arguments mkResult {T} Value Err.
Arguments Value {T} r.
Arguments Err {T} r.

#[global] Instance Reflect_ptr : Reflect (option addr) :=
  fun p => mkValue KPtr (bool_decide (p = None)).
#[global] Instance Reflect_int : Reflect Z :=
  fun _ => mkValue KInt false.
#[global] Instance Reflect_string : Reflect string :=
  fun _ => mkValue KString false.
#[global] Instance Reflect_value : Reflect value :=
  fun v =>
    match v with
    | VString _ => mkValue KString false
    | VInt _ => mkValue KInt false
    | VRef k r => mkValue k (bool_decide (r = None))
    end.
(** An interface-typed [T], here [error]: reflect.ValueOf sees the dynamic
    value, and the zero Value (kind Invalid) for a nil interface.  A foreign
    value of a kind that can be nil is nil or not as [value_nil] has it. *)
Definition Reflect_error (ms : Methods) : Reflect error :=
  fun e =>
    match e with
    | nil_error => mkValue KInvalid true
    | PtrError p => mkValue KPtr (bool_decide (p = None))
    | ValError _ => mkValue KStruct false
    | ForeignVal t i _ =>
        mkValue (fkind t) (nilable (fkind t) && value_nil ms t i)
    | ForeignPtr _ p _ => mkValue KPtr (bool_decide (p = None))
    end.

(** The struct [CastOrWrap] allocates for [err]: a copy of the [Error] that
    [err] is or points to, or a wrapper around [err]. *)
Definition coerced (h : list Error) (err : error) : res Error :=
  de ← dereference h err;
  match de with
  | ValError e => Done e
  | _ => Done (mkError "cast to eros.Error" err None 1)
  end.

(** The top-level pointer of [err], if any, points into the heap. *)
Definition live (h : list Error) (err : error) : Prop :=
  match err with
  | PtrError (Some p) => is_Some (h !! p)
  | _ => True
  end.

(** The messages along the [next] links from [p]. *)
Fixpoint next_msgs (n : nat) (h : list Error) (p : option addr)
    : list string :=
  match n, p with
  | S n, Some a =>
      match h !! a with
      | Some x => msg x :: next_msgs n h (next x)
      | None => []
      end
  | _, _ => []
  end.

(** A leaf error and the depth of its coercion: a [*Error] as [New] makes
    it (depth 0), or a foreign error with neither an Unwrap nor an Is
    method, which [CastOrWrap] wraps (depth 1). *)
Definition leaf_depth (h : list Error) (err : error) : option Z :=
  match err with
  | PtrError (Some a) =>
      match h !! a with
      | Some (mkError _ nil_error None 0) => Some 0
      | _ => None
      end
  | ForeignVal _ _ _ | ForeignPtr _ _ _ =>
      if asserts err MUnwrap || asserts err MIs then None else Some 1
  | _ => None
  end.

(** [e := nil.WithCause(err1); e.WithCause(err2); e.WithCause(err3)]. *)
Definition accumulate3 (ms : Methods) (n : nat) (err1 err2 err3 : error)
    : M (option addr) :=
  e ← WithCause ms n None err1;
  _ ← WithCause ms n e err2;
  _ ← WithCause ms n e err3;
  mret e.

(** [h'] has every struct of [h], at the same address. *)
Definition extends (h h' : list Error) : Prop :=
  forall (a : addr) (x : Error), h !! a = Some x -> h' !! a = Some x.

(** The nodes [As] visits from [err]: [err], [Unwrap(err)], ... *)
Inductive node (ms : Methods) (h : list Error) : error -> error -> Prop :=
| node_here (err : error) :
    is_nil err = false -> node ms h err err
| node_next (err err' x : error) :
    is_nil err = false -> Unwrap ms h err = Done err' -> node ms h err' x ->
    node ms h err x.


(** No node of the chain, dereferenced, has an As method of its own. *)
Definition no_custom_As (ms : Methods) (h : list Error) (err : error)
    : Prop :=
  forall x de : error,
    node ms h err x -> dereference h x = Done de -> asserts de MAs = false.


(** The slot type is one [As] accepts and the slot is a live variable. *)
Definition valid_slot (m : memory) (T : gtype) (l : addr) : Prop :=
  (Kind T = KInterface \/ Implements T errorType = true)
  /\ match T with
     | TError => (l < length (heap m))%nat
     | _ => (l < length (vars m))%nat
     end.


Definition assignable_to (de : error) (T : gtype) : bool :=
  match TypeOf de with
  | Some t => AssignableTo t T
  | None => false
  end.

(** ** The package's own tests (errors_test.go), with the types of
    github.com/pkg/errors as reflection sees them *)

Module Tests.

Definition fundamental : ftype :=
  mkFtype "errors.fundamental" KStruct true [] [MError; MOther "Format"].
Definition withMessage : ftype :=
  mkFtype "errors.withMessage" KStruct true []
    [MError; MOther "Cause"; MUnwrap; MOther "Format"].
Definition withStack : ftype :=
  mkFtype "errors.withStack" KStruct true [MError]
    [MOther "Cause"; MUnwrap; MOther "Format"].

(** errors.Wrapf(err, ...): a [*withStack] around a [*withMessage]. *)
Definition errors_Wrapf (i : nat) (err : error) : error :=
  ForeignPtr withStack (Some i) (ForeignPtr withMessage (Some (S i)) err).
(** errors.New(...). *)
Definition errors_New (i : nat) : error :=
  ForeignPtr fundamental (Some i) nil_error.

(** Unwrap as the types of pkg/errors have it: the wrapped error is a
    field, read through the receiver.  Through a nil pointer the read
    panics, and so does the call itself when the method is declared on the
    value. *)
Definition field_Unwrap (err : error) : res error :=
  match err with
  | ForeignVal _ _ inner | ForeignPtr _ (Some _) inner => Done inner
  | ForeignPtr t None _ =>
      if bool_decide (MUnwrap ∈ fmethods t)
      then Abort nil_dereference_panic
      else Abort memoryError
  | _ => Done nil_error
  end.

(** Values of a foreign comparable type that are equal exactly when they
    are the same value. *)
Definition same_value (t : ftype) (i j : nat) : res bool :=
  Done (bool_decide (i = j)).

(** Foreign types without Is and As methods of their own. *)
Definition no_methods : Methods :=
  mkMethods field_Unwrap (fun _ _ => Done false)
    (fun _ _ m => (Done false, m)) same_value (fun _ _ => false).

(** NewErrorInstance at 0, ComparedErrorInstance at 1, a third
    New("This is an eros Error") at 2, &Error{} at 3. *)
Definition globals : memory :=
  mkMemory
    [mkError "This is an eros Error" nil_error None 0;
     mkError "This is an eros Error" nil_error None 0;
     mkError "This is an eros Error" nil_error None 0;
     mkError "" nil_error None 0] [].

Definition NewErrorInstance : error := PtrError (Some 0%nat).
Definition ComparedErrorInstance : error := PtrError (Some 1%nat).


Definition empty : memory := mkMemory [] [].

(** [a := New("a"); a.WithCause(New("b"))]. *)
Definition one_cause : M (option addr) :=
  a ← New "a"; b ← New "b";
  WithCause no_methods 5 (Some a) (PtrError (Some b)).

(** ... and then [a.WithCause(New("c"))]. *)
Definition two_causes : M (option addr) :=
  e ← one_cause; c ← New "c";
  WithCause no_methods 5 e (PtrError (Some c)).

(** The memory after [one_cause] and [New("c")]. *)
Definition one_cause_and_c : memory :=
  mkMemory
    [mkError "a" nil_error (Some 2%nat) 1; mkError "b" nil_error None 0;
     mkError "b" nil_error None 0; mkError "c" nil_error None 0] [].

(** Three errors made by [New], accumulated on a nil receiver. *)
Definition three_New : M (option addr) :=
  a ← New "a"; b ← New "b"; c ← New "c";
  accumulate3 no_methods 5
    (PtrError (Some a)) (PtrError (Some b)) (PtrError (Some c)).

Definition abc : memory :=
  mkMemory
    [mkError "a" nil_error None 0; mkError "b" nil_error None 0;
     mkError "c" nil_error None 0] [].


(** [e := New("e"); e.WithCause(Wrap(e, "x"))]. *)
Definition wrap_self : M (option addr) :=
  e ← New "e"; w ← Wrap (PtrError (Some e)) "x";
  WithCause no_methods 5 (Some e) (PtrError (Some w)).

(** A handler that returns and a handler that panics. *)
Definition quiet : Handler := fun _ m => (Done tt, m).
Definition loud : Handler := fun _ m => (Abort (AnyVal (VString "boom")), m).
End Tests.

(** * Further definitions *)

(** The values on which [e == e] holds: pointers, which are compared by
    address, and the foreign values of a comparable type that the type's
    own [==] finds equal to themselves. *)
Definition identity_comparable (ms : Methods) (e : error) : bool :=
  match e with
  | PtrError _ | ForeignPtr _ _ _ => true
  | ForeignVal t i _ =>
      fcomparable t
      && match value_eq ms t i i with
         | Done true => true
         | _ => false
         end
  | _ => false
  end.

(** The values of foreign types. *)
Definition foreign (e : error) : bool :=
  match e with
  | ForeignVal _ _ _ | ForeignPtr _ _ _ => true
  | _ => false
  end.

(** A target of pointer type, or nil. *)
Definition pointer_or_nil (e : error) : bool :=
  match e with
  | nil_error | PtrError _ | ForeignPtr _ _ _ => true
  | _ => false
  end.

(** [Wrap(...Wrap(Wrap(err, s1), s2)..., sk)]. *)
Fixpoint Wrap_times (msgs : list string) (err : error) : M error :=
  match msgs with
  | [] => mret err
  | s :: rest => w ← Wrap err s; Wrap_times rest (PtrError (Some w))
  end.

(** The errors [CastOrWrap] wraps rather than copies: everything but a
    live [*Error] and an [Error] value. *)
Definition wrapped_by_cast (e : error) : bool :=
  match e with
  | PtrError (Some _) | ValError _ => false
  | _ => true
  end.

(** [e := New(s); w := Wrap(e, t); e.WithCause(w)]. *)
Definition wrap_and_attach (ms : Methods) (n : nat) (s t : string)
    : M (option addr) :=
  e ← New s; w ← Wrap (PtrError (Some e)) t;
  WithCause ms n (Some e) (PtrError (Some w)).

(** [for _, t := range ts { e.WithCause(New(t)) }] on the head [p]. *)
Fixpoint attach_News (ms : Methods) (n : nat) (p : addr) (ts : list string)
    : M unit :=
  match ts with
  | [] => mret tt
  | t :: rest =>
      a ← New t;
      _ ← WithCause ms n (Some p) (PtrError (Some a));
      attach_News ms n p rest
  end.

(** A chain of leaf structs linked by [next], by its messages: no causes,
    and each count is the number of links behind the struct. *)
Inductive stack (h : list Error) : option addr -> list string -> Prop :=
| stack_nil : stack h None []
| stack_cons (p : addr) (s : string) (nx : option addr)
    (rest : list string) :
    h !! p = Some (mkError s nil_error nx (Z.of_nat (length rest))) ->
    stack h nx rest ->
    stack h (Some p) (s :: rest).

(** The targets [As] refuses before it looks at the error: nil, not a
    pointer, a nil pointer, and a pointer to a type that is neither an
    interface nor an error. *)
Definition refused_target (tgt : target) : bool :=
  match tgt with
  | TargetNil | TargetNonPtr _ | TargetPtr _ None => true
  | TargetPtr T (Some _) =>
      negb (bool_decide (Kind T = KInterface))
      && negb (Implements T errorType)
  end.

Definition newline : string := String (Ascii.ascii_of_nat 10) EmptyString.

(** [func (e Error) Error() string] (errors.go); [text] is the Error() of a
    foreign error, which may return, panic or not return.  The method has a
    value receiver: through a [*Error] it reads the struct, and through a
    nil [*Error] it panics. *)
Fixpoint Error_Error (text : error -> res string) (n : nat) (h : list Error)
    (e : Error) : res string :=
  match n with
  | O => Fault OutOfFuel
  | S n =>
      c ← match next e with
          | Some q => x ← load h q; Error_Error text n h x
          | None => Done ""
          end;
      c ← match cause e with
          | nil_error => Done c
          | PtrError (Some q) =>
              x ← load h q; r ← Error_Error text n h x;
              Done (" " +:+ c +:+ newline +:+ " root cause; " +:+ r)
          | PtrError None => Abort nil_dereference_panic
          | ValError x =>
              r ← Error_Error text n h x;
              Done (" " +:+ c +:+ newline +:+ " root cause; " +:+ r)
          | f =>
              r ← text f;
              Done (" " +:+ c +:+ newline +:+ " root cause; " +:+ r)
          end;
      Done (" " +:+ msg e +:+ " (cause count " +:+ pretty (count e) +:+ ")"
            +:+ newline +:+ c)
  end.

(** The rendering of a chain of leaf structs, by its messages. *)
Fixpoint render (ss : list string) : string :=
  match ss with
  | [] => ""
  | s :: rest =>
      " " +:+ s +:+ " (cause count " +:+ pretty (Z.of_nat (length rest))
      +:+ ")" +:+ newline +:+ render rest
  end.

(** Sample data for the instances below. *)
Module Samples.

(** A foreign error type of slice kind: not comparable. *)
Definition errs : ftype := mkFtype "custom.errs" KSlice false [MError] [].

Definition foreign_text : error -> res string := fun _ => Done "foreign".

(** A chain of three leaf structs: a, then c, then b. *)
Definition three_links : list Error :=
  [mkError "a" nil_error (Some 1%nat) 2; mkError "c" nil_error (Some 2%nat) 1;
   mkError "b" nil_error None 0].

(** The memory after [e := New("e"); e.WithCause(Wrap(e, "x"))], with one
    variable for a target to point to. *)
Definition cycle : memory :=
  mkMemory
    [mkError "e" nil_error (Some 2%nat) 2;
     mkError "x" (PtrError (Some 0%nat)) None 1;
     mkError "x" (PtrError (Some 0%nat)) None 1] [nil_error].

(** ... and then [a := New("a"); a.WithCause(New("b"))]. *)
Definition cycle_and_chain : memory :=
  mkMemory
    [mkError "e" nil_error (Some 2%nat) 2;
     mkError "x" (PtrError (Some 0%nat)) None 1;
     mkError "x" (PtrError (Some 0%nat)) None 1;
     mkError "a" nil_error (Some 5%nat) 1;
     mkError "b" nil_error None 0;
     mkError "b" nil_error None 0] [nil_error].

(** One struct wrapping a foreign error. *)
Definition wrapper : list Error :=
  [mkError "w" (ForeignPtr Tests.fundamental (Some 1%nat) nil_error) None 1].

End Samples.

(** * Properties *)

Ltac unfold_monad :=
  unfold mbind, mret, res_bind, res_ret, M_bind, M_ret, W_bind, W_ret,
    lift, liftM, panic in *.

(** ** Memory *)

Lemma lookup_fresh (h : list Error) (x : Error) :
  (h ++ [x]) !! length h = Some x.
Proof. by apply list_lookup_middle. Qed.

Lemma lookup_old (h : list Error) (x : Error) (p : addr) :
  is_Some (h !! p) -> (h ++ [x]) !! p = h !! p.
Proof. intros Hp. apply lookup_app_l. by apply lookup_lt_is_Some. Qed.

Lemma load_Done (h : list Error) (p : addr) (x : Error) :
  load h p = Done x <-> h !! p = Some x.
Proof.
  unfold load. destruct (h !! p); split; intros E; congruence.
Qed.

(** ** Coercion *)

Lemma CastOrWrap_coerced (err : error) (m : memory) (x : Error) :
  coerced (heap m) err = Done x ->
  CastOrWrap err m
  = (Done (length (heap m)), mkMemory (heap m ++ [x]) (vars m)).
Proof.
  unfold coerced, CastOrWrap, Wrap, alloc. unfold_monad.
  destruct (dereference (heap m) err) as [de| |]; try discriminate.
  destruct de; intros E; injection E as <-; reflexivity.
Qed.

Lemma coerced_live (h : list Error) (err : error) :
  live h err -> exists x, coerced h err = Done x.
Proof.
  unfold coerced, dereference, Elem, load. unfold_monad.
  destruct err as [|[p|]|e|t i inner|t [i|] inner]; simpl; intros L;
    repeat case_match; simplify_eq; eauto.
  by destruct L.
Qed.

Lemma coerced_PtrError (h : list Error) (p : addr) (x : Error) :
  h !! p = Some x -> coerced h (PtrError (Some p)) = Done x.
Proof.
  intros Hp. unfold coerced, dereference, Elem, load. unfold_monad. simpl.
  by rewrite Hp.
Qed.

(** ** Chain traversal *)

Lemma Unwrap_PtrError {ms : Methods} (h : list Error) (p : addr)
    (x : Error) :
  h !! p = Some x ->
  Unwrap ms h (PtrError (Some p))
  = Done (match next x with
          | Some q => PtrError (Some q)
          | None => cause x
          end).
Proof.
  intros Hp. unfold Unwrap, Error_Unwrap, load. unfold_monad. simpl.
  rewrite Hp. by destruct (next x).
Qed.

Lemma equal_PtrError {ms : Methods} (p q : option addr) :
  equal ms (PtrError p) (PtrError q) = Done (bool_decide (p = q)).
Proof. reflexivity. Qed.

Lemma Is_loop_S ms (n : nat) (h : list Error) (c : bool) (err tgt : error) :
  Is_loop ms (S n) h c err tgt
  = match (if c then equal ms err tgt else Done false) with
    | Done true => Done true
    | Done false =>
        match (if asserts err MIs then method_Is ms err tgt
               else Done false) with
        | Done true => Done true
        | Done false =>
            match Unwrap ms h err with
            | Done err' =>
                if is_nil err' then Done false
                else Is_loop ms n h c err' tgt
            | Abort v => Abort v
            | Fault f => Fault f
            end
        | Abort v => Abort v
        | Fault f => Fault f
        end
    | Abort v => Abort v
    | Fault f => Fault f
    end.
Proof.
  simpl. unfold_monad.
  destruct (if c then equal ms err tgt else Done false) as [[|]| |]; done.
Qed.

Lemma Is_loop_mono ms (n : nat) (h : list Error) (c : bool)
    (err tgt : error) (b : bool) :
  Is_loop ms n h c err tgt = Done b ->
  forall k : nat, (n <= k)%nat -> Is_loop ms k h c err tgt = Done b.
Proof.
  revert err. induction n as [|n IH]; intros err E k Hk; [discriminate|].
  destruct k as [|k]; [lia|]. rewrite Is_loop_S in *.
  destruct (if c then equal ms err tgt else Done false) as [[|]| |];
    try done.
  destruct (if asserts err MIs then method_Is ms err tgt else Done false)
    as [[|]| |]; try done.
  destruct (Unwrap ms h err) as [err'| |]; try done.
  destruct (is_nil err'); [done|]. apply IH; [done|lia].
Qed.

Lemma Is_mono ms (n : nat) (h : list Error) (err tgt : error) (b : bool) :
  Is ms n h err tgt = Done b ->
  forall k : nat, (n <= k)%nat -> Is ms k h err tgt = Done b.
Proof.
  unfold Is. destruct (TypeOf tgt); [|done]. apply Is_loop_mono.
Qed.

(** C1.  Two instances made by [New] with the same message are distinct
    pointers to equal representations, and [Is] on them returns false: the
    comparison is the pointers', and [*Error] has no Is method.  The
    package's own test ("should be comparable to even though they are
    different") expects true. *)
Theorem Is_distinct_New_instances (ms : Methods) (message : string)
    (m : memory) (n : nat) :
  exists (p q : addr) (m' : memory),
    (p ← New message; q ← New message; mret (p, q)) m = (Done (p, q), m')
    /\ p <> q
    /\ is_Some (heap m' !! p)
    /\ heap m' !! p = heap m' !! q
    /\ Is ms (S n) (heap m') (PtrError (Some p)) (PtrError (Some q))
       = Done false.
Proof.
  set (x := mkError message nil_error None 0).
  exists (length (heap m)), (length (heap m ++ [x])). eexists.
  split; [unfold New, alloc; unfold_monad; simpl; reflexivity|]. simpl.
  assert (Hp : ((heap m ++ [x]) ++ [x]) !! length (heap m) = Some x).
  { rewrite lookup_old; [apply lookup_fresh|]. rewrite lookup_fresh. eauto. }
  assert (Hq : ((heap m ++ [x]) ++ [x]) !! length (heap m ++ [x]) = Some x)
    by apply lookup_fresh.
  assert (Hne : length (heap m) <> length (heap m ++ [x]))
    by (rewrite length_app; simpl; lia).
  subst x. split; [done|]. split; [eauto|]. split; [congruence|].
  unfold Is. cbn [TypeOf Comparable].
  rewrite Is_loop_S, equal_PtrError, (Unwrap_PtrError _ _ _ Hp).
  rewrite bool_decide_eq_false_2 by congruence. reflexivity.
Qed.

(** ** Augmentation *)

Lemma modify_Done (p : addr) (f : Error -> Error) (m : memory) (x : Error) :
  heap m !! p = Some x ->
  modify p f m = (Done tt, mkMemory (<[p := f x]> (heap m)) (vars m)).
Proof. intros Hp. unfold modify. by rewrite Hp. Qed.

Lemma modify_inv (p : addr) (f : Error -> Error) (m m' : memory) (u : unit) :
  modify p f m = (Done u, m') ->
  exists x, heap m !! p = Some x
    /\ m' = mkMemory (<[p := f x]> (heap m)) (vars m).
Proof.
  unfold modify. destruct (heap m !! p) as [x|]; [|discriminate].
  intros [= _ <-]. eauto.
Qed.

Lemma CastOrWrap_inv (err : error) (m m1 : memory) (v : addr) :
  CastOrWrap err m = (Done v, m1) ->
  exists x, coerced (heap m) err = Done x
    /\ v = length (heap m)
    /\ m1 = mkMemory (heap m ++ [x]) (vars m).
Proof.
  unfold coerced, CastOrWrap, Wrap, alloc. unfold_monad.
  destruct (dereference (heap m) err) as [de| |]; try discriminate.
  destruct de; intros [= <- <-]; eauto.
Qed.

Lemma WithCause_nil ms (n : nat) (err : error) :
  WithCause ms (S n) None err = (v ← CastOrWrap err; mret (Some v)).
Proof. reflexivity. Qed.

(** One unfolding of [WithCause] on a receiver that is not nil. *)
Lemma WithCause_Some ms (n : nat) (p : addr) (err : error) (m : memory) :
  WithCause ms (S n) (Some p) err m
  = if is_nil err then (Done (Some p), m)
    else match Is ms n (heap m) (PtrError (Some p)) err with
         | Done true => (Done (Some p), m)
         | Done false =>
             (v ← CastOrWrap err;
              x ← lift (fun h => load h p);
              match next x with
              | Some q =>
                  r ← WithCause ms n (Some v) (PtrError (Some q));
                  modify p (set_next r)
              | None => modify p (set_next (Some v))
              end;;
              y ← lift (fun h => load h v);
              modify p (set_count (wrap64 (count y + 1)));;
              mret (Some p)) m
         | Abort a => (Abort a, m)
         | Fault f => (Fault f, m)
         end.
Proof.
  simpl. destruct (is_nil err); [reflexivity|]. unfold_monad.
  destruct (Is ms n (heap m) (PtrError (Some p)) err) as [[|]| |]; reflexivity.
Qed.

(** A receiver that is not nil is what [WithCause] returns. *)
Lemma WithCause_receiver ms (n : nat) (p : addr) (err : error)
    (m m' : memory) (r : option addr) :
  WithCause ms n (Some p) err m = (Done r, m') -> r = Some p.
Proof.
  destruct n as [|n]; [discriminate|]. rewrite WithCause_Some.
  destruct (is_nil err); [congruence|].
  destruct (Is ms n (heap m) (PtrError (Some p)) err) as [[|]| |];
    try congruence.
  unfold_monad. intros E.
  repeat (case_match; try discriminate). all: try congruence.
Qed.

(** [WithCause] allocates and writes to its receiver; every other struct
    that existed before the call is left as it was, and so is the store. *)
Lemma WithCause_frame ms (n : nat) :
  forall (e : option addr) (err : error) (m m' : memory) (r : option addr),
    WithCause ms n e err m = (Done r, m') ->
    (length (heap m) <= length (heap m'))%nat
    /\ vars m' = vars m
    /\ forall a : addr, (a < length (heap m))%nat -> e <> Some a ->
         heap m' !! a = heap m !! a.
Proof.
  induction n as [|n IH]; intros e err m m' r E; [discriminate|].
  destruct e as [p|].
  - rewrite WithCause_Some in E.
    destruct (is_nil err); [injection E as <- <-; auto|].
    destruct (Is ms n (heap m) (PtrError (Some p)) err) as [[|]| |];
      try discriminate; [injection E as <- <-; auto|].
    unfold_monad. cbv beta in E.
    destruct (CastOrWrap err m) as [[v| |] m1] eqn:Ev; try discriminate.
    apply CastOrWrap_inv in Ev as (xv & _ & -> & ->). cbn [heap vars] in E.
    destruct (load (heap m ++ [xv]) p) as [x| |] eqn:Ex; try discriminate.
    match type of E with
    | context [let (_, _) := ?c in _] =>
        destruct c as [[u| |] m2] eqn:Estep; try discriminate
    end.
    assert ((length (heap m) < length (heap m2))%nat
            /\ vars m2 = vars m
            /\ forall a, (a < length (heap m))%nat -> Some p <> Some a ->
                  heap m2 !! a = heap m !! a) as (Hlen & Hvars & Hframe).
    { destruct (next x) as [q|].
      - destruct (WithCause ms n (Some (length (heap m))) (PtrError (Some q))
                    (mkMemory (heap m ++ [xv]) (vars m)))
          as [[r1| |] m3] eqn:Ei; try discriminate.
        apply IH in Ei as (Hl & Hv & Hf). cbn [heap vars] in Hl, Hv, Hf.
        rewrite length_app in Hl, Hf. cbn [length] in Hl, Hf.
        apply modify_inv in Estep as (x2 & Hx2 & ->). cbn [heap vars].
        rewrite length_insert. split; [lia|]. split; [done|].
        intros a Ha Hne. rewrite list_lookup_insert_ne by congruence.
        rewrite Hf by (lia || (intros [=]; lia)).
        apply lookup_app_l. lia.
      - apply modify_inv in Estep as (x2 & Hx2 & ->). cbn [heap vars].
        rewrite length_insert, length_app. cbn [length].
        split; [lia|]. split; [done|].
        intros a Ha Hne. rewrite list_lookup_insert_ne by congruence.
        apply lookup_app_l. lia. }
    destruct (load (heap m2) (length (heap m))) as [y| |]; try discriminate.
    destruct (modify p _ m2) as [[u'| |] m3] eqn:Em; try discriminate.
    apply modify_inv in Em as (x3 & Hx3 & ->). injection E as <- <-.
    cbn [heap vars]. rewrite length_insert. split; [lia|]. split; [done|].
    intros a Ha Hne. rewrite list_lookup_insert_ne by congruence. auto.
  - rewrite WithCause_nil in E. unfold_monad.
    destruct (CastOrWrap err m) as [[v| |] m1] eqn:Ev; try discriminate.
    apply CastOrWrap_inv in Ev as (xv & _ & -> & ->). injection E as <- <-.
    simpl. rewrite length_app. simpl. split; [lia|]. split; [done|].
    intros a Ha _. apply lookup_app_l. lia.
Qed.

(** Attaching to a receiver that has no [next] yet. *)
Lemma WithCause_first_link ms (n : nat) (p : addr) (err : error)
    (m : memory) (x xv : Error) :
  heap m !! p = Some x -> next x = None ->
  is_nil err = false ->
  Is ms n (heap m) (PtrError (Some p)) err = Done false ->
  coerced (heap m) err = Done xv ->
  WithCause ms (S n) (Some p) err m
  = (Done (Some p),
     mkMemory
       (<[p := mkError (msg x) (cause x) (Some (length (heap m)))
                 (wrap64 (count xv + 1))]> (heap m ++ [xv]))
       (vars m)).
Proof.
  intros Hp Hn Hnil HIs Hc. rewrite WithCause_Some, Hnil, HIs.
  unfold_monad. rewrite (CastOrWrap_coerced _ _ _ Hc). cbn [heap vars].
  assert (Hlt : (p < length (heap m))%nat) by by eapply lookup_lt_Some.
  assert (Hp1 : (heap m ++ [xv]) !! p = Some x)
    by (rewrite lookup_app_l; done).
  unfold load at 1. rewrite Hp1, Hn.
  erewrite modify_Done by exact Hp1. cbn [heap vars].
  unfold load. rewrite list_lookup_insert_ne by lia. rewrite lookup_fresh.
  erewrite modify_Done; cbn [heap vars].
  2:{ apply list_lookup_insert_eq. rewrite length_app. lia. }
  rewrite list_insert_insert_eq. reflexivity.
Qed.

(** Attaching to a receiver whose [next] is [q] already: the coerced error
    [v] receives the old link by [v.WithCause(q)] and becomes the
    receiver's [next]. *)
Lemma WithCause_merge ms (n : nat) (p q v : addr) (err : error)
    (m m1 m2 : memory) (x : Error) (r1 : option addr) :
  heap m !! p = Some x -> next x = Some q ->
  is_nil err = false ->
  Is ms n (heap m) (PtrError (Some p)) err = Done false ->
  CastOrWrap err m = (Done v, m1) ->
  WithCause ms n (Some v) (PtrError (Some q)) m1 = (Done r1, m2) ->
  exists (y : Error) (m' : memory),
    WithCause ms (S n) (Some p) err m = (Done (Some p), m')
    /\ v = length (heap m) /\ r1 = Some v
    /\ heap m2 !! v = Some y
    /\ heap m'
       = <[p := mkError (msg x) (cause x) (Some v) (wrap64 (count y + 1))]>
           (heap m2)
    /\ vars m' = vars m.
Proof.
  intros Hp Hn Hnil HIs Hv Hin.
  pose proof (WithCause_receiver _ _ _ _ _ _ _ Hin) as ->.
  pose proof (WithCause_frame _ _ _ _ _ _ _ Hin) as (Hlen & Hvars & Hframe).
  rewrite WithCause_Some, Hnil, HIs. unfold_monad. rewrite Hv.
  apply CastOrWrap_inv in Hv as (xv & Hc & -> & ->).
  cbn [heap vars] in *. rewrite length_app in Hlen, Hframe.
  cbn [length] in Hlen, Hframe.
  assert (Hlt : (p < length (heap m))%nat) by by eapply lookup_lt_Some.
  assert (Hp1 : (heap m ++ [xv]) !! p = Some x)
    by (rewrite lookup_app_l; done).
  unfold load at 1. rewrite Hp1, Hn, Hin.
  assert (Hp2 : heap m2 !! p = Some x).
  { rewrite Hframe; [done|lia|]. intros [=]. lia. }
  destruct (lookup_lt_is_Some_2 (heap m2) (length (heap m))) as [y Hy];
    [lia|].
  exists y. eexists.
  erewrite modify_Done by exact Hp2. cbn [heap vars].
  unfold load. rewrite list_lookup_insert_ne by lia. rewrite Hy.
  erewrite modify_Done; cbn [heap vars].
  2:{ apply list_lookup_insert_eq. by eapply lookup_lt_Some. }
  rewrite list_insert_insert_eq.
  split; [reflexivity|]. cbn [heap vars]. auto.
Qed.

(** The merge when the coerced error has no [next] of its own and does not
    lead to the old link: the old link is copied behind it. *)
Lemma WithCause_merge_leaf ms (n : nat) (p q : addr) (err : error)
    (m : memory) (x xq xv : Error) :
  heap m !! p = Some x -> next x = Some q -> heap m !! q = Some xq ->
  is_nil err = false ->
  Is ms (S n) (heap m) (PtrError (Some p)) err = Done false ->
  coerced (heap m) err = Done xv -> next xv = None ->
  Is ms n (heap m ++ [xv]) (PtrError (Some (length (heap m))))
    (PtrError (Some q)) = Done false ->
  exists m' : memory,
    WithCause ms (S (S n)) (Some p) err m = (Done (Some p), m')
    /\ heap m' !! p
       = Some (mkError (msg x) (cause x) (Some (length (heap m)))
                 (wrap64 (wrap64 (count xq + 1) + 1)))
    /\ heap m' !! length (heap m)
       = Some (mkError (msg xv) (cause xv) (Some (S (length (heap m))))
                 (wrap64 (count xq + 1)))
    /\ heap m' !! S (length (heap m)) = Some xq.
Proof.
  intros Hp Hn Hq Hnil HIs Hc Hnv HIs'.
  assert (Hlt : (p < length (heap m))%nat) by by eapply lookup_lt_Some.
  assert (Hq1 : (heap m ++ [xv]) !! q = Some xq).
  { rewrite lookup_app_l; [done|]. by eapply lookup_lt_Some. }
  pose proof (WithCause_first_link ms n (length (heap m)) (PtrError (Some q))
    (mkMemory (heap m ++ [xv]) (vars m)) xv xq) as Hin.
  cbn [heap vars] in Hin.
  specialize (Hin (lookup_fresh _ _) Hnv eq_refl HIs'
                (coerced_PtrError _ _ _ Hq1)).
  destruct (WithCause_merge ms (S n) p q _ err m _ _ x _ Hp Hn Hnil HIs
              (CastOrWrap_coerced _ _ _ Hc) Hin)
    as (y & m' & E & _ & _ & Hy & Hheap & _).
  cbn [heap] in Hy. rewrite length_app in Hy. cbn [length] in Hy.
  rewrite list_lookup_insert_eq in Hy
    by (rewrite !length_app; cbn [length]; lia).
  injection Hy as <-. cbn [count] in Hheap.
  exists m'. split; [done|]. rewrite Hheap, !length_app. cbn [length heap].
  replace (length (heap m) + 1)%nat with (S (length (heap m))) by lia.
  split; [|split].
  - apply list_lookup_insert_eq. rewrite length_insert, !length_app.
    cbn [length]. lia.
  - rewrite list_lookup_insert_ne by lia.
    apply list_lookup_insert_eq. rewrite !length_app. cbn [length]. lia.
  - rewrite !list_lookup_insert_ne by lia.
    replace (S (length (heap m))) with (length (heap m ++ [xv]))
      by (rewrite length_app; cbn [length]; lia).
    apply lookup_fresh.
Qed.

(** C7.  [WithCause] leaves everything as it is when the cause is nil or is
    found in the receiver's chain by [Is]: the receiver is returned and the
    memory, hence the chain and its [Count], is unchanged.  On a nil
    receiver it returns the coercion of the error, which is not nil. *)
Theorem WithCause_idempotent ms (n : nat) (m : memory) :
  (forall p : addr,
     WithCause ms (S n) (Some p) nil_error m = (Done (Some p), m))
  /\ (forall (p : addr) (c : error) (k : nat),
        (k <= n)%nat ->
        Is ms k (heap m) (PtrError (Some p)) c = Done true ->
        WithCause ms (S n) (Some p) c m = (Done (Some p), m))
  /\ (forall err : error,
        live (heap m) err ->
        exists (q : addr) (m' : memory),
          WithCause ms (S n) None err m = (Done (Some q), m')
          /\ CastOrWrap err m = (Done q, m')
          /\ is_Some (heap m' !! q)).
Proof.
  split; [|split].
  - intros p. by rewrite WithCause_Some.
  - intros p c k Hk HIs. rewrite WithCause_Some.
    destruct (is_nil c); [done|].
    by rewrite (Is_mono _ _ _ _ _ _ HIs n Hk).
  - intros err Hlive. destruct (coerced_live _ _ Hlive) as [x Hx].
    exists (length (heap m)). eexists.
    rewrite WithCause_nil. unfold_monad.
    rewrite (CastOrWrap_coerced _ _ _ Hx).
    split; [reflexivity|]. split; [reflexivity|].
    cbn [heap]. rewrite lookup_fresh. eauto.
Qed.

(** ** Leaf errors *)

Lemma extends_app (h : list Error) (x : Error) : extends h (h ++ [x]).
Proof.
  intros a y Ha. rewrite lookup_app_l; [done|]. by eapply lookup_lt_Some.
Qed.

Lemma extends_insert_fresh (h h' : list Error) (q : addr) (x : Error) :
  extends h h' -> (length h <= q)%nat -> extends h (<[q := x]> h').
Proof.
  intros He Hq a y Ha. rewrite list_lookup_insert_ne; [by apply He|].
  apply lookup_lt_Some in Ha. lia.
Qed.

Lemma extends_trans (h1 h2 h3 : list Error) :
  extends h1 h2 -> extends h2 h3 -> extends h1 h3.
Proof. unfold extends. eauto. Qed.

Section Leaf.

Context (ms : Methods) (h : list Error) (err : error) (k : Z).
Hypothesis Hleaf : leaf_depth h err = Some k.

Lemma leaf_depth_range : k = 0 \/ k = 1.
Proof using Hleaf.
  unfold leaf_depth in Hleaf.
  repeat case_match; simplify_eq; auto.
Qed.

Lemma leaf_not_nil : is_nil err = false.
Proof using Hleaf.
  unfold leaf_depth in Hleaf. by destruct err.
Qed.

Lemma leaf_TypeOf : exists t, TypeOf err = Some t.
Proof using Hleaf.
  unfold leaf_depth in Hleaf. destruct err; simpl; eauto. done.
Qed.

Lemma leaf_no_Is : asserts err MIs = false.
Proof using Hleaf.
  unfold leaf_depth in Hleaf.
  destruct err as [|[a|]|e|t i inner|t i inner]; try done;
    by destruct (asserts _ MUnwrap), (asserts _ MIs).
Qed.

Lemma leaf_Unwrap (h' : list Error) :
  extends h h' -> Unwrap ms h' err = Done nil_error.
Proof using Hleaf.
  intros He. unfold leaf_depth in Hleaf.
  destruct err as [|[a|]|e|t i inner|t i inner]; try done.
  - destruct (h !! a) as [x|] eqn:Ha; [|done].
    rewrite (Unwrap_PtrError _ _ _ (He _ _ Ha)).
    destruct x as [s c nx z]. repeat case_match; simplify_eq. done.
  - unfold Unwrap. by destruct (asserts _ MUnwrap).
  - unfold Unwrap. by destruct (asserts _ MUnwrap).
Qed.

(** What [CastOrWrap] makes of a leaf: no [next], depth [k], and as cause
    either nothing or the leaf itself. *)
Lemma leaf_coerced (h' : list Error) :
  extends h h' ->
  exists xe : Error,
    coerced h' err = Done xe /\ next xe = None /\ count xe = k
    /\ (cause xe = nil_error \/ cause xe = err /\ TypeOf err <> Some TPtrError).
Proof using Hleaf.
  intros He. unfold leaf_depth in Hleaf.
  destruct err as [|[a|]|e|t i inner|t [i|] inner]; try done.
  - destruct (h !! a) as [x|] eqn:Ha; [|done].
    exists x. rewrite (coerced_PtrError _ _ _ (He _ _ Ha)).
    destruct x as [s c nx z]. cbn.
    destruct c; try done. destruct nx; try done. destruct z; try done.
    injection Hleaf as <-. repeat split; try done. by left.
  - destruct (_ || _); [done|]. injection Hleaf as <-.
    eexists. split.
    { unfold coerced, dereference, Elem. unfold_monad. cbn.
      repeat case_match; simplify_eq; done. }
    cbn. split; [done|]. split; [done|]. right. by split.
  - destruct (_ || _); [done|]. injection Hleaf as <-.
    eexists. split.
    { unfold coerced, dereference, Elem. unfold_monad. cbn.
      repeat case_match; simplify_eq; done. }
    cbn. split; [done|]. split; [done|]. right. by split.
  - destruct (_ || _); [done|]. injection Hleaf as <-.
    eexists. split.
    { unfold coerced, dereference, Elem. unfold_monad. cbn.
      repeat case_match; simplify_eq; done. }
    cbn. split; [done|]. split; [done|]. right. by split.
Qed.

(** [Is] on a leaf is a single comparison, whatever the heap and fuel. *)
Lemma leaf_Is_loop (h' : list Error) (j : nat) (c : bool) (tgt : error) :
  extends h h' ->
  Is_loop ms (S j) h' c err tgt
  = if c then equal ms err tgt else Done false.
Proof using Hleaf.
  intros He. rewrite Is_loop_S, leaf_no_Is, (leaf_Unwrap _ He). cbn.
  destruct c; [|done]. by destruct (equal ms err tgt) as [[|]| |].
Qed.

(** A leaf is not a pointer allocated after it. *)
Lemma leaf_equal_fresh (q : addr) :
  (length h <= q)%nat ->
  equal ms (PtrError (Some q)) err = Done false
  /\ equal ms err (PtrError (Some q)) = Done false.
Proof using Hleaf.
  intros Hq. unfold leaf_depth in Hleaf.
  destruct err as [|[a|]|e|t i inner|t i inner]; try done.
  destruct (h !! a) eqn:Ha; [|done]. apply lookup_lt_Some in Ha.
  rewrite !equal_PtrError, !bool_decide_eq_false_2; [done| |];
    intros [=]; lia.
Qed.

End Leaf.

(** [Is] from a struct without [next]: the struct itself, then its cause. *)
Lemma Is_from_cell ms (j : nat) (h : list Error) (q : addr) (xq : Error)
    (tgt : error) (t : gtype) :
  h !! q = Some xq -> next xq = None ->
  equal ms (PtrError (Some q)) tgt = Done false ->
  TypeOf tgt = Some t ->
  (cause xq = nil_error
   \/ Is_loop ms (S j) h (Comparable t) (cause xq) tgt = Done false) ->
  Is ms (S (S j)) h (PtrError (Some q)) tgt = Done false.
Proof.
  intros Hq Hn Heq Ht Hc. unfold Is. rewrite Ht, Is_loop_S, Heq.
  rewrite (Unwrap_PtrError _ _ _ Hq), Hn.
  replace (asserts (PtrError (Some q)) MIs) with false by done.
  cbn [andb]. destruct Hc as [->| ->].
  - by destruct (Comparable t).
  - destruct (Comparable t); by destruct (is_nil (cause xq)).
Qed.

(** [Is] from a struct with a [next]: the struct itself, then the link. *)
Lemma Is_via_next ms (j : nat) (h : list Error) (q q' : addr) (xq : Error)
    (tgt : error) :
  h !! q = Some xq -> next xq = Some q' ->
  equal ms (PtrError (Some q)) tgt = Done false ->
  Is ms j h (PtrError (Some q')) tgt = Done false ->
  Is ms (S j) h (PtrError (Some q)) tgt = Done false.
Proof.
  intros Hq Hn Heq. unfold Is. destruct (TypeOf tgt) as [t|]; [|done].
  intros HIs. rewrite Is_loop_S, Heq, (Unwrap_PtrError _ _ _ Hq), Hn.
  replace (asserts (PtrError (Some q)) MIs) with false by done.
  cbn [andb is_nil]. by destruct (Comparable t).
Qed.

Lemma wrap64_small (z : Z) : -2 ^ 63 <= z < 2 ^ 63 -> wrap64 z = z.
Proof.
  intros Hz. unfold wrap64. rewrite Z.mod_small; lia.
Qed.

(** C2 (amended).  On a receiver [p] whose [next] is [q] already, and for
    an error that is not nil and not found in the chain, [WithCause]
    coerces the error to a new struct [v] and hands the old link to it by
    [v.WithCause(q)].  The call ends as that merge ends: when the merge
    panics or does not return, so does the call; when the merge returns,
    the memory is the one the merge left, with [v] as the receiver's
    [next] and the count of [v] after the merge, plus one, as its count,
    and the merge has changed no struct that existed before the call.  For
    a leaf error the merge does return: [v] takes a copy of the struct at
    [q] as its own [next], so that the chain reads receiver, new link, old
    link: the new link is ahead of the links attached before, not at the
    tail. *)
Theorem WithCause_onto_next ms (n : nat) (p q : addr) (err : error)
    (m : memory) (x xv : Error) :
  heap m !! p = Some x -> next x = Some q ->
  is_nil err = false ->
  Is ms n (heap m) (PtrError (Some p)) err = Done false ->
  coerced (heap m) err = Done xv ->
  CastOrWrap err m
  = (Done (length (heap m)), mkMemory (heap m ++ [xv]) (vars m))
  /\ (forall (r : res (option addr)) (m2 : memory),
        WithCause ms n (Some (length (heap m))) (PtrError (Some q))
          (mkMemory (heap m ++ [xv]) (vars m)) = (r, m2) ->
        match r with
        | Done r1 =>
            exists y : Error,
              r1 = Some (length (heap m))
              /\ heap m2 !! length (heap m) = Some y
              /\ WithCause ms (S n) (Some p) err m
                 = (Done (Some p),
                    mkMemory
                      (<[p := mkError (msg x) (cause x)
                                (Some (length (heap m)))
                                (wrap64 (count y + 1))]> (heap m2))
                      (vars m))
              /\ (forall a : addr, (a < length (heap m))%nat ->
                    heap m2 !! a = heap m !! a)
        | Abort a => WithCause ms (S n) (Some p) err m = (Abort a, m2)
        | Fault f => WithCause ms (S n) (Some p) err m = (Fault f, m2)
        end)
  /\ (forall (k : Z) (xq : Error),
        leaf_depth (heap m) err = Some k -> heap m !! q = Some xq ->
        (3 <= n)%nat ->
        exists m' : memory,
          WithCause ms (S n) (Some p) err m = (Done (Some p), m')
          /\ heap m' !! p
             = Some (mkError (msg x) (cause x) (Some (length (heap m)))
                       (wrap64 (wrap64 (count xq + 1) + 1)))
          /\ heap m' !! length (heap m)
             = Some (mkError (msg xv) (cause xv)
                       (Some (S (length (heap m))))
                       (wrap64 (count xq + 1)))
          /\ heap m' !! S (length (heap m)) = Some xq
          /\ next_msgs 3 (heap m') (Some p) = [msg x; msg xv; msg xq]).
Proof.
  intros Hp Hn Hnil HIs Hc.
  pose proof (CastOrWrap_coerced _ _ _ Hc) as Hv.
  assert (Hlt : (p < length (heap m))%nat) by by eapply lookup_lt_Some.
  split; [exact Hv|]. split.
  - intros r m2 Hin. destruct r as [r1|a|f].
    + destruct (WithCause_merge _ _ _ _ _ _ _ _ _ _ _ Hp Hn Hnil HIs Hv Hin)
        as (y & m' & E & _ & -> & Hy & Hheap & Hvars).
      pose proof (WithCause_frame _ _ _ _ _ _ _ Hin) as (_ & _ & Hframe).
      cbn [heap vars] in Hframe. rewrite length_app in Hframe.
      cbn [length] in Hframe.
      exists y. split; [done|]. split; [done|]. split.
      * rewrite E. f_equal. destruct m' as [h' vs']. cbn [heap vars] in *.
        by rewrite Hheap, Hvars.
      * intros a Ha. rewrite Hframe; [|lia|intros [=]; lia].
        apply lookup_app_l. lia.
    + rewrite WithCause_Some, Hnil, HIs. unfold_monad. rewrite Hv.
      cbn [heap vars]. unfold load at 1.
      rewrite lookup_app_l, Hp, Hn, Hin by done. done.
    + rewrite WithCause_Some, Hnil, HIs. unfold_monad. rewrite Hv.
      cbn [heap vars]. unfold load at 1.
      rewrite lookup_app_l, Hp, Hn, Hin by done. done.
  - intros k xq Lk Hq Hfuel.
    destruct n as [|[|[|j]]]; [lia..|].
    destruct (leaf_coerced _ _ _ Lk (heap m)) as (xe & Hxe & Hne & _ & Hcause);
      [by intros ? ?|].
    rewrite Hc in Hxe. injection Hxe as <-.
    assert (Hqlt : (q < length (heap m))%nat) by by eapply lookup_lt_Some.
    assert (HIs' : Is ms (S (S j)) (heap m ++ [xv])
                     (PtrError (Some (length (heap m))))
                     (PtrError (Some q)) = Done false).
    { apply (Is_from_cell ms j _ _ xv _ TPtrError (lookup_fresh _ _) Hne);
        [|done|].
      - rewrite equal_PtrError, bool_decide_eq_false_2; [done|].
        intros [=]. lia.
      - destruct Hcause as [->|[-> Hty]]; [by left|right].
        rewrite (leaf_Is_loop ms _ _ _ Lk); [|apply extends_app].
        cbn [Comparable]. unfold leaf_depth in Lk.
        by destruct err as [|[a|]|e|t i inner|t i inner]. }
    destruct (WithCause_merge_leaf ms (S (S j)) p q err m x xq xv Hp Hn Hq
                Hnil HIs Hc Hne HIs') as (m' & E & Hp' & Hv' & Hq').
    exists m'. split; [exact E|]. split; [exact Hp'|].
    split; [exact Hv'|]. split; [exact Hq'|].
    cbn [next_msgs]. rewrite Hp'. cbn [msg next]. rewrite Hv'.
    cbn [msg next]. by rewrite Hq'.
Qed.

(** C3 (amended).  Three leaf errors, the second not found from the first
    nor the third from the second, attached to a nil receiver one after
    the other: the head's [Count] is 2 plus the depth of the second error's
    coercion, that is 2 for a [*Error] made by [New] and 3 for a foreign
    error. *)
Theorem accumulate3_Count ms (n : nat) (m : memory) (err1 err2 err3 : error)
    (k1 k2 k3 : Z) :
  leaf_depth (heap m) err1 = Some k1 ->
  leaf_depth (heap m) err2 = Some k2 ->
  leaf_depth (heap m) err3 = Some k3 ->
  Is ms (S n) (heap m) err1 err2 = Done false ->
  Is ms (S n) (heap m) err2 err3 = Done false ->
  exists (e : addr) (x : Error) (m' : memory),
    accumulate3 ms (4 + n) err1 err2 err3 m = (Done (Some e), m')
    /\ heap m' !! e = Some x
    /\ Count x = 2 + k2.
Proof.
  intros L1 L2 L3 H12 H23.
  set (h0 := heap m) in *.
  destruct (leaf_TypeOf _ _ _ L2) as [t2 Ht2].
  destruct (leaf_TypeOf _ _ _ L3) as [t3 Ht3].
  (* the first call *)
  destruct (leaf_coerced _ _ _ L1 h0) as (x1 & Hc1 & Hn1 & _ & Hcause1);
    [by intros ? ?|].
  set (q1 := length h0). set (h1 := h0 ++ [x1]).
  assert (E01 : extends h0 h1) by apply extends_app.
  (* the second call *)
  destruct (leaf_coerced _ _ _ L2 h1 E01) as (x2 & Hc2 & Hn2 & Hk2 & Hcause2).
  assert (HIs2 : Is ms (3 + n) h1 (PtrError (Some q1)) err2 = Done false).
  { apply (Is_from_cell ms (1 + n) h1 q1 x1 err2 t2);
      [apply lookup_fresh|done| |done|].
    - by apply (leaf_equal_fresh ms _ _ _ L2).
    - destruct Hcause1 as [->|[-> _]]; [by left|right].
      rewrite (leaf_Is_loop ms _ _ _ L1 h1 _ _ _ E01).
      unfold Is in H12. rewrite Ht2 in H12.
      by rewrite (leaf_Is_loop ms _ _ _ L1 h0) in H12 by by intros ? ?. }
  set (q2 := length h1).
  set (c1 := mkError (msg x1) (cause x1) (Some q2) (wrap64 (count x2 + 1))).
  set (h2 := <[q1 := c1]> (h1 ++ [x2])).
  assert (Hq1 : h2 !! q1 = Some c1).
  { apply list_lookup_insert_eq. subst h1 q1.
    rewrite !length_app. cbn [length]. lia. }
  assert (Hq2 : h2 !! q2 = Some x2).
  { subst h2. rewrite list_lookup_insert_ne; [apply lookup_fresh|].
    subst q1 q2 h1. rewrite length_app. cbn [length]. lia. }
  assert (E02 : extends h0 h2).
  { apply extends_insert_fresh; [|done].
    eapply extends_trans; [exact E01|apply extends_app]. }
  assert (Hlen1 : (length h0 <= q2)%nat).
  { subst q2 h1. rewrite length_app. lia. }
  (* the third call *)
  destruct (leaf_coerced _ _ _ L3 h2 E02) as (x3 & Hc3 & Hn3 & _ & Hcause3).
  assert (HIs3 : Is ms (3 + n) h2 (PtrError (Some q1)) err3 = Done false).
  { apply (Is_via_next ms (2 + n) h2 q1 q2 c1 err3); [done|done| |].
    - by apply (leaf_equal_fresh ms _ _ _ L3).
    - apply (Is_from_cell ms n h2 q2 x2 err3 t3); [done|done| |done|].
      + by apply (leaf_equal_fresh ms _ _ _ L3).
      + destruct Hcause2 as [->|[-> _]]; [by left|right].
        rewrite (leaf_Is_loop ms _ _ _ L2 h2 _ _ _ E02).
        unfold Is in H23. rewrite Ht3 in H23.
        by rewrite (leaf_Is_loop ms _ _ _ L2 h0) in H23 by by intros ? ?. }
  assert (HIs3' : Is ms (2 + n) (h2 ++ [x3]) (PtrError (Some (length h2)))
                    (PtrError (Some q2)) = Done false).
  { apply (Is_from_cell ms n (h2 ++ [x3]) (length h2) x3 _ TPtrError);
      [apply lookup_fresh|done| |done|].
    - rewrite equal_PtrError, bool_decide_eq_false_2; [done|].
      intros [=]. apply lookup_lt_Some in Hq2. lia.
    - destruct Hcause3 as [->|[-> _]]; [by left|right].
      rewrite (leaf_Is_loop ms _ _ _ L3 (h2 ++ [x3])).
      + by apply (leaf_equal_fresh ms _ _ _ L3).
      + eapply extends_trans; [exact E02|apply extends_app]. }
  destruct (WithCause_merge_leaf ms (2 + n) q1 q2 err3
              (mkMemory h2 (vars m)) c1 x2 x3 Hq1 eq_refl Hq2
              (leaf_not_nil _ _ _ L3) HIs3 Hc3 Hn3 HIs3')
    as (m' & E3 & Hp' & _).
  exists q1. eexists. exists m'. split; [|split; [exact Hp'|]].
  - unfold accumulate3. unfold_monad.
    change (4 + n)%nat with (S (3 + n)). rewrite WithCause_nil. unfold_monad.
    rewrite (CastOrWrap_coerced _ _ _ Hc1). fold h0 h1 q1.
    rewrite (WithCause_first_link ms (3 + n) q1 err2 (mkMemory h1 (vars m))
               x1 x2 (lookup_fresh _ _) Hn1 (leaf_not_nil _ _ _ L2) HIs2 Hc2).
    cbn [heap vars]. fold q2 c1 h2.
    change (S (3 + n)) with (S (S (2 + n))). by rewrite E3.
  - cbn [Count count]. rewrite Hk2.
    destruct (leaf_depth_range _ _ _ L2) as [->| ->]; reflexivity.
Qed.

(** ** Results *)

Lemma CastOrWrap_live (err : error) (m : memory) :
  live (heap m) err ->
  exists x : Error,
    CastOrWrap err m
    = (Done (length (heap m)), mkMemory (heap m ++ [x]) (vars m)).
Proof.
  intros L. destruct (coerced_live _ _ L) as [x Hx].
  exists x. by apply CastOrWrap_coerced.
Qed.

(** C5.  [Check] on a result returns the value when the error is nil; when
    it is not nil it panics with the pointer [CastOrWrap] makes of the
    error and does not return.  The function [Check] on an error does the
    same, returning nothing when the error is nil. *)
Theorem Check_fail_fast (T : Type) (r : Result T) (err : error) (m : memory) :
  (is_nil (Err r) = true -> Result_Check r m = (Done (Value r), m))
  /\ (is_nil (Err r) = false -> live (heap m) (Err r) ->
      exists (p : addr) (m' : memory),
        CastOrWrap (Err r) m = (Done p, m')
        /\ Result_Check r m = (Abort (AnyErr (PtrError (Some p))), m'))
  /\ (is_nil (Err r) = false ->
      forall (a : T) (m' : memory), Result_Check r m <> (Done a, m'))
  /\ (is_nil err = true -> Check err m = (Done tt, m))
  /\ (is_nil err = false -> live (heap m) err ->
      exists (p : addr) (m' : memory),
        CastOrWrap err m = (Done p, m')
        /\ Check err m = (Abort (AnyErr (PtrError (Some p))), m'))
  /\ (is_nil err = false ->
      forall (a : unit) (m' : memory), Check err m <> (Done a, m')).
Proof.
  unfold Result_Check, Check. unfold_monad.
  split; [by intros ->|]. split.
  { intros -> L. destruct (CastOrWrap_live _ _ L) as [x Hx].
    eexists. eexists. split; [exact Hx|]. cbn. by rewrite Hx. }
  split.
  { intros -> a m'. cbn. by destruct (CastOrWrap (Err r) m) as [[| |] ?]. }
  split; [by intros ->|]. split.
  { intros -> L. destruct (CastOrWrap_live _ _ L) as [x Hx].
    eexists. eexists. split; [exact Hx|]. cbn. by rewrite Hx. }
  intros -> a m'. cbn. by destruct (CastOrWrap err m) as [[| |] ?].
Qed.

(** C6 (amended).  [Handle] on a result whose error is not nil invokes the
    handler once, with the coercion of the error, and then returns the
    value if the handler returns; a panic raised by the handler goes on out
    of [Handle], which raises none of its own.  With a nil error the
    handler is not invoked and the value is returned. *)
Theorem Result_Handle_fail_through (T : Type) (r : Result T)
    (handler : Handler) (w : world) :
  (is_nil (Err r) = true -> Result_Handle r handler w = (Done (Value r), w))
  /\ (is_nil (Err r) = false -> live (heap (mem w)) (Err r) ->
      exists (p : addr) (m1 : memory),
        CastOrWrap (Err r) (mem w) = (Done p, m1)
        /\ Result_Handle r handler w
           = (match fst (handler (Some p) m1) with
              | Done _ => Done (Value r)
              | Abort v => Abort v
              | Fault f => Fault f
              end,
              mkWorld (snd (handler (Some p) m1)) (calls w ++ [Some p]))).
Proof.
  unfold Result_Handle, call. unfold_monad. split.
  - intros ->. by destruct w.
  - intros -> L. destruct (CastOrWrap_live _ _ L) as [x Hx].
    eexists. eexists. split; [exact Hx|]. cbn. rewrite Hx. cbn.
    by destruct (handler _ _) as [[| |] ?].
Qed.

(** C4 (amended).  The cleanup of [ErrorHandler] around a scope in which
    [Check] panics on an error that is not nil runs the handler once, on a
    live [*Error], and the panic of [Check] goes no further: the scope ends
    as the handler ends, normally when the handler returns and with the
    handler's own panic when the handler panics.  A panic value that is
    not nil and not an error is raised again as it is, and the handler is
    not run.  A nil panic value is what recover() also returns when nothing
    panics (as the language had it when the package was written), so the
    cleanup does not raise it again: the scope ends normally, and the
    handler is not run. *)
Theorem ErrorHandler_recovery_point (T : Type) (r : Result T)
    (handler : Handler) (w : world) :
  (is_nil (Err r) = false -> live (heap (mem w)) (Err r) ->
   exists (p q : addr) (m1 m2 : memory),
     Result_Check r (mem w) = (Abort (AnyErr (PtrError (Some p))), m1)
     /\ CastOrWrap (PtrError (Some p)) m1 = (Done q, m2)
     /\ is_Some (heap m2 !! q)
     /\ defer_recover (ErrorHandler handler) (liftM (Result_Check r)) w
        = (match fst (handler (Some q) m2) with
           | Done _ => Done None
           | Abort v => Abort v
           | Fault f => Fault f
           end,
           mkWorld (snd (handler (Some q) m2)) (calls w ++ [Some q])))
  /\ (forall v : value,
        ErrorHandler handler (AnyVal v) w = (Abort (AnyVal v), w))
  /\ (forall (A : Type) (body : W A) (v : value) (w' : world),
        body w = (Abort (AnyVal v), w') ->
        defer_recover (ErrorHandler handler) body w = (Abort (AnyVal v), w'))
  /\ (forall (A : Type) (body : W A) (w' : world),
        body w = (Abort AnyNil, w') ->
        defer_recover (ErrorHandler handler) body w = (Done None, w')).
Proof.
  split; [|split; [|split]].
  - intros Hnil L. destruct (CastOrWrap_live _ _ L) as [x Hx].
    set (p := length (heap (mem w))) in *.
    set (m1 := mkMemory (heap (mem w) ++ [x]) (vars (mem w))) in *.
    assert (Hp : heap m1 !! p = Some x) by apply lookup_fresh.
    assert (Hq : CastOrWrap (PtrError (Some p)) m1
                 = (Done (length (heap m1)),
                    mkMemory (heap m1 ++ [x]) (vars m1)))
      by (apply CastOrWrap_coerced; by apply coerced_PtrError).
    assert (Hc : Result_Check r (mem w)
                 = (Abort (AnyErr (PtrError (Some p))), m1)).
    { unfold Result_Check. unfold_monad. rewrite Hnil. cbn. by rewrite Hx. }
    exists p, (length (heap m1)), m1. eexists.
    split; [exact Hc|]. split; [exact Hq|].
    split; [cbn [heap]; rewrite lookup_fresh; eauto|].
    unfold defer_recover, ErrorHandler, call. unfold_monad.
    rewrite Hc. cbn [mem calls]. rewrite Hq. cbn [mem calls].
    by destruct (handler _ _) as [[| |] ?].
  - done.
  - intros A body v w' Hb. unfold defer_recover. rewrite Hb. done.
  - intros A body w' Hb. unfold defer_recover. rewrite Hb. done.
Qed.

(** C9 (amended).  [CheckNotNil] on a value that reflection sees with a
    kind that can be nil: the value is returned as it is, and nothing else
    happens, when it holds a referent; when it holds none the call panics
    with a new [*Error] whose message is the one given.  For a type
    parameter that is an interface, [error] here, reflection sees the
    value the interface holds: a [*Error] or a foreign pointer behaves as
    said, but a nil interface, and an interface holding an [Error] struct,
    make the call panic with reflection's own error: no [*Error] is made
    and the message is lost. *)
Theorem CheckNotNil_reference ms (T : Type) `{Reflect T} (val : T)
    (message : string) (m : memory) :
  (nilable (vkind (ValueOf val)) = true ->
   (vnil (ValueOf val) = false -> CheckNotNil val message m = (Done val, m))
   /\ (vnil (ValueOf val) = true ->
       exists (p : addr) (m' : memory),
         CheckNotNil val message m = (Abort (AnyErr (PtrError (Some p))), m')
         /\ New message m = (Done p, m')
         /\ heap m' !! p = Some (mkError message nil_error None 0)))
  /\ (forall (t : ftype) (q : option addr) (inner : error),
        q <> None ->
        @CheckNotNil error (Reflect_error ms) (PtrError q) message m
        = (Done (PtrError q), m)
        /\ @CheckNotNil error (Reflect_error ms) (ForeignPtr t q inner)
             message m
           = (Done (ForeignPtr t q inner), m))
  /\ (exists (p : addr) (m' : memory),
        @CheckNotNil error (Reflect_error ms) (PtrError None) message m
        = (Abort (AnyErr (PtrError (Some p))), m')
        /\ heap m' !! p = Some (mkError message nil_error None 0))
  /\ @CheckNotNil error (Reflect_error ms) nil_error message m
     = (Abort ValueError_panic, m)
  /\ (forall x : Error,
        @CheckNotNil error (Reflect_error ms) (ValError x) message m
        = (Abort ValueError_panic, m)).
Proof.
  split; [|split; [|split; [|split]]].
  - intros Hk. unfold CheckNotNil, IsNil, New, alloc. unfold_monad.
    destruct (vkind (ValueOf val)); try discriminate; cbn;
      (split; intros ->; [done|]);
      (eexists; eexists; split; [reflexivity|split; [reflexivity|]]);
      cbn [heap]; apply lookup_fresh.
  - intros t q inner Hq. unfold CheckNotNil, IsNil. unfold_monad. cbn.
    by rewrite bool_decide_eq_false_2.
  - eexists. eexists. split; [reflexivity|]. cbn [heap]. apply lookup_fresh.
  - reflexivity.
  - reflexivity.
Qed.

(** C10.  [CheckNotNil] on a value of a kind that cannot be nil, an int for
    one, does not return it: reflect.Value.IsNil panics, with reflection's
    own error and not with an [*Error] carrying the message, and no
    [*Error] is made. *)
Theorem CheckNotNil_not_nilable (T : Type) `{Reflect T} (val : T)
    (message : string) (m : memory) :
  nilable (vkind (ValueOf val)) = false ->
  CheckNotNil val message m = (Abort ValueError_panic, m)
  /\ (forall p : option addr, ValueError_panic <> AnyErr (PtrError p)).
Proof.
  intros Hk. split; [|done].
  unfold CheckNotNil, IsNil. unfold_monad.
  by destruct (vkind (ValueOf val)).
Qed.

(** ** Typed extraction *)


Lemma As_loop_S ms (n : nat) (err : error) (tgt : target) (T : gtype)
    (l : addr) (m : memory) :
  is_nil err = false ->
  As_loop ms (S n) err tgt T l m
  = match dereference (heap m) err with
    | Done de =>
        if assignable_to de T then
          match set_slot T l de m with
          | (Done _, m') => (Done true, m')
          | (Abort v, m') => (Abort v, m')
          | (Fault f, m') => (Fault f, m')
          end
        else
          match (if asserts de MAs then call_As ms de tgt m
                 else (Done false, m)) with
          | (Done true, m') => (Done true, m')
          | (Done false, m') =>
              match Unwrap ms (heap m') err with
              | Done err' => As_loop ms n err' tgt T l m'
              | Abort v => (Abort v, m')
              | Fault f => (Fault f, m')
              end
          | (Abort v, m') => (Abort v, m')
          | (Fault f, m') => (Fault f, m')
          end
    | Abort v => (Abort v, m)
    | Fault f => (Fault f, m)
    end.
Proof.
  intros E. cbn [As_loop]. rewrite E. unfold_monad. unfold assignable_to.
  destruct (dereference (heap m) err) as [de| |]; try done.
  destruct (match TypeOf de with Some t => _ | None => _ end).
  - by destruct (set_slot T l de m) as [[| |] ?].
  - destruct (asserts de MAs).
    + by destruct (call_As ms de tgt m) as [[[|]| |] m'].
    + done.
Qed.








Lemma As_valid ms (n : nat) (err : error) (T : gtype) (l : addr)
    (m : memory) :
  valid_slot m T l ->
  As ms n err (TargetPtr T (Some l)) m
  = As_loop ms n err (TargetPtr T (Some l)) T l m.
Proof.
  intros [[Hk|Hi] _]; unfold As.
  - by rewrite bool_decide_eq_true_2.
  - by rewrite Hi, andb_false_r.
Qed.



Import Tests.

(** ** The package's tests, evaluated *)

Example TestIs_same_instance :
  Is no_methods 9 (heap globals) NewErrorInstance NewErrorInstance = Done true.
Proof. reflexivity. Qed.

Example TestIs_wrapped :
  Is no_methods 9 (heap globals) (errors_Wrapf 7 NewErrorInstance)
    NewErrorInstance = Done true.
Proof. reflexivity. Qed.

Example TestIs_not_in_chain :
  Is no_methods 9 (heap globals) (errors_Wrapf 7 (PtrError (Some 2%nat)))
    (PtrError (Some 3%nat)) = Done false.
Proof. reflexivity. Qed.

(** The fourth case of TestIs wants true. *)
Example TestIs_compared_instance :
  Is no_methods 9 (heap globals) ComparedErrorInstance NewErrorInstance
  = Done false.
Proof. reflexivity. Qed.

Example TestAs_wrapped :
  As no_methods 9 (errors_Wrapf 7 NewErrorInstance)
    (TargetPtr TError (Some 3%nat)) globals
  = (Done true,
     mkMemory (<[3%nat := mkError "This is an eros Error" nil_error None 0]>
                 (heap globals)) []).
Proof. reflexivity. Qed.

Example TestAs_instance :
  fst (As no_methods 9 NewErrorInstance (TargetPtr TError (Some 3%nat))
         globals) = Done true.
Proof. reflexivity. Qed.

Example TestAs_no_eros_error :
  As no_methods 9 (errors_Wrapf 7 (errors_New 3))
    (TargetPtr TError (Some 3%nat)) globals = (Done false, globals).
Proof. reflexivity. Qed.

Example TestUnwrap_wrapped :
  is_nil <$> Unwrap no_methods (heap globals) (errors_Wrapf 7 (PtrError (Some 2%nat)))
  = Done false.
Proof. reflexivity. Qed.

Example TestUnwrap_leaf :
  Unwrap no_methods (heap globals) (PtrError (Some 2%nat)) = Done nil_error.
Proof. reflexivity. Qed.

(** [Is] on two [Error] values (not pointers) of equal representation. *)
Example Is_equal_values (s : string) (n : nat) :
  Is no_methods (S n) [] (ValError (mkError s nil_error None 0))
    (ValError (mkError s nil_error None 0)) = Done true.
Proof.
  unfold Is. cbn [TypeOf Comparable]. rewrite Is_loop_S. unfold equal. cbn.
  by rewrite !bool_decide_eq_true_2.
Qed.

(** [e := New("e"); e.WithCause(Wrap(e, "x"))] leaves a chain that comes
    back to [e]: [Is] from [e] for an error that is not in it never
    returns, whatever the fuel. *)
Example Is_on_cycle (n : nat) :
  fst (wrap_self empty) = Done (Some 0%nat)
  /\ Is no_methods n (heap (snd (wrap_self empty))) (PtrError (Some 0%nat))
       (PtrError (Some 1%nat)) = Fault OutOfFuel.
Proof.
  split; [reflexivity|]. unfold Is. cbn [TypeOf Comparable].
  set (h := heap (snd (wrap_self empty))).
  enough (Is_loop no_methods n h true (PtrError (Some 0%nat))
            (PtrError (Some 1%nat)) = Fault OutOfFuel
          /\ Is_loop no_methods n h true (PtrError (Some 2%nat))
               (PtrError (Some 1%nat)) = Fault OutOfFuel) by tauto.
  induction n as [|n [IH0 IH2]]; [done|].
  rewrite !Is_loop_S, !equal_PtrError.
  split.
  - rewrite (Unwrap_PtrError h 0%nat (mkError "e" nil_error (Some 2%nat) 2))
      by reflexivity.
    exact IH2.
  - rewrite (Unwrap_PtrError h 2%nat
               (mkError "x" (PtrError (Some 0%nat)) None 1)) by reflexivity.
    exact IH0.
Qed.

(** On that chain [As] with a slot no node can be assigned to does not
    return either. *)
Example As_on_cycle (n : nat) :
  heap (snd (wrap_self empty)) = heap Samples.cycle
  /\ valid_slot Samples.cycle (TPtrNamed fundamental) 0%nat
  /\ no_custom_As no_methods (heap Samples.cycle) (PtrError (Some 0%nat))
  /\ As no_methods n (PtrError (Some 0%nat))
       (TargetPtr (TPtrNamed fundamental) (Some 0%nat)) Samples.cycle
     = (Fault OutOfFuel, Samples.cycle).
Proof.
  split; [reflexivity|].
  assert (Hv : valid_slot Samples.cycle (TPtrNamed fundamental) 0%nat)
    by (split; [by right|cbn; lia]).
  split; [exact Hv|]. split.
  { assert (Hnodes : forall a x : error,
              node no_methods (heap Samples.cycle) a x ->
              a = PtrError (Some 0%nat) \/ a = PtrError (Some 2%nat) ->
              x = PtrError (Some 0%nat) \/ x = PtrError (Some 2%nat)).
    { induction 1 as [a Hnil|a a' x Hnil Hu Hx IH]; [done|].
      intros [-> | ->]; injection Hu as <-; apply IH; auto. }
    intros x de Hx Hd.
    destruct (Hnodes _ _ Hx (or_introl eq_refl)) as [-> | ->];
      by injection Hd as <-. }
  rewrite As_valid by done.
  enough (As_loop no_methods n (PtrError (Some 0%nat))
            (TargetPtr (TPtrNamed fundamental) (Some 0%nat))
            (TPtrNamed fundamental) 0%nat Samples.cycle
          = (Fault OutOfFuel, Samples.cycle)
          /\ As_loop no_methods n (PtrError (Some 2%nat))
               (TargetPtr (TPtrNamed fundamental) (Some 0%nat))
               (TPtrNamed fundamental) 0%nat Samples.cycle
             = (Fault OutOfFuel, Samples.cycle)) by tauto.
  induction n as [|n [IH0 IH2]]; [done|].
  rewrite !As_loop_S by done. cbn. by split.
Qed.

(** With a receiver that has a link already and an error that leads into
    that chain, the merge inside [WithCause] does not return, and so
    neither does [WithCause]. *)
Example WithCause_on_cycle (n : nat) :
  (e ← wrap_self; a ← New "a"; b ← New "b";
   _ ← WithCause no_methods 5 (Some a) (PtrError (Some b)); mret (e, a)) empty
  = (Done (Some 0%nat, 3%nat),
     mkMemory (heap Samples.cycle_and_chain) [])
  /\ Is no_methods 3 (heap Samples.cycle_and_chain) (PtrError (Some 3%nat))
       (PtrError (Some 0%nat)) = Done false
  /\ fst (WithCause no_methods n (Some 3%nat) (PtrError (Some 0%nat))
            Samples.cycle_and_chain) = Fault OutOfFuel.
Proof.
  split; [reflexivity|]. split; [reflexivity|].
  set (x0 := mkError "e" nil_error (Some 2%nat) 2).
  set (h1 := heap Samples.cycle_and_chain ++ [x0]).
  assert (Hcyc : forall k : nat,
            Is no_methods k h1 (PtrError (Some 6%nat)) (PtrError (Some 5%nat))
            = Fault OutOfFuel).
  { intros k. unfold Is. cbn [TypeOf Comparable].
    enough (Is_loop no_methods k h1 true (PtrError (Some 6%nat))
              (PtrError (Some 5%nat)) = Fault OutOfFuel
            /\ Is_loop no_methods k h1 true (PtrError (Some 2%nat))
                 (PtrError (Some 5%nat)) = Fault OutOfFuel
            /\ Is_loop no_methods k h1 true (PtrError (Some 0%nat))
                 (PtrError (Some 5%nat)) = Fault OutOfFuel) by tauto.
    induction k as [|k (IH6 & IH2 & IH0)]; [done|].
    rewrite !Is_loop_S, !equal_PtrError.
    rewrite (Unwrap_PtrError h1 6%nat x0) by reflexivity.
    rewrite (Unwrap_PtrError h1 2%nat
               (mkError "x" (PtrError (Some 0%nat)) None 1)) by reflexivity.
    rewrite (Unwrap_PtrError h1 0%nat x0) by reflexivity.
    cbn. by split. }
  destruct n as [|[|[|n]]]; [reflexivity..|].
  rewrite WithCause_Some. cbn [is_nil].
  replace (Is no_methods (S (S n)) (heap Samples.cycle_and_chain)
             (PtrError (Some 3%nat)) (PtrError (Some 0%nat)))
    with (Done false : res bool) by reflexivity.
  unfold_monad.
  rewrite (CastOrWrap_coerced _ _ x0) by reflexivity.
  cbn [heap vars]. unfold load at 1. cbn [lookup].
  replace ((heap Samples.cycle_and_chain ++ [x0]) !! 3%nat)
    with (Some (mkError "a" nil_error (Some 5%nat) 1)) by reflexivity.
  cbn [next]. rewrite WithCause_Some. cbn [is_nil heap].
  fold h1. by rewrite Hcyc.
Qed.

(** [CheckNotNil] on a nil interface: reflection sees the zero Value. *)
Example CheckNotNil_nil_interface :
  @CheckNotNil error (Reflect_error no_methods) nil_error "no error" empty
  = (Abort ValueError_panic, empty).
Proof. reflexivity. Qed.

(** Three foreign errors, made by errors.New, accumulated on a nil
    receiver: the head's count is 3. *)
Example accumulate3_foreign :
  (x ← accumulate3 no_methods 5 (errors_New 1) (errors_New 3) (errors_New 5);
   lift (fun h => match x with
                  | Some e => Count <$> load h e
                  | None => Done 0
                  end)) empty
  = (Done 3, snd (accumulate3 no_methods 5 (errors_New 1) (errors_New 3)
                    (errors_New 5) empty)).
Proof. reflexivity. Qed.

(** ** Instances of the theorems, and inputs at which the specification's
    statements fail *)

Lemma WithCause_idempotent_witness :
  fst (one_cause empty) = Done (Some 0%nat)
  /\ WithCause no_methods 5 (Some 0%nat) (PtrError (Some 2%nat))
       (snd (one_cause empty))
     = (Done (Some 0%nat), snd (one_cause empty)).
Proof.
  split; [reflexivity|].
  apply (proj1 (proj2 (WithCause_idempotent no_methods 4 (snd (one_cause empty))))
           0%nat (PtrError (Some 2%nat)) 4%nat); [lia|reflexivity].
Defined.

Lemma WithCause_onto_next_witness :
  exists m' : memory,
    WithCause no_methods 5 (Some 0%nat) (PtrError (Some 3%nat)) one_cause_and_c
    = (Done (Some 0%nat), m')
    /\ heap m' !! 0%nat = Some (mkError "a" nil_error (Some 4%nat) 2)
    /\ heap m' !! 4%nat = Some (mkError "c" nil_error (Some 5%nat) 1)
    /\ heap m' !! 5%nat = Some (mkError "b" nil_error None 0)
    /\ next_msgs 3 (heap m') (Some 0%nat) = ["a"; "c"; "b"].
Proof.
  exact (proj2 (proj2 (WithCause_onto_next no_methods 4 0%nat 2%nat
                         (PtrError (Some 3%nat)) one_cause_and_c
                         (mkError "a" nil_error (Some 2%nat) 1)
                         (mkError "c" nil_error None 0)
                         eq_refl eq_refl eq_refl eq_refl eq_refl))
           0 (mkError "b" nil_error None 0) eq_refl eq_refl
           (le_S 3 3 (le_n 3))).
Defined.

(** The link attached last comes first: with "b" attached to the head "a"
    and "c" not in the chain, attaching "c" gives the chain a, c, b. *)
Lemma WithCause_onto_next_counterexample :
  (e ← one_cause; c ← New "c"; mret (e, c)) empty
  = (Done (Some 0%nat, 3%nat), one_cause_and_c)
  /\ next <$> heap one_cause_and_c !! 0%nat = Some (Some 2%nat)
  /\ Is no_methods 4 (heap one_cause_and_c) (PtrError (Some 0%nat))
       (PtrError (Some 3%nat)) = Done false
  /\ next_msgs 9 (heap one_cause_and_c) (Some 0%nat) = ["a"; "b"]
  /\ exists m' : memory,
       WithCause no_methods 5 (Some 0%nat) (PtrError (Some 3%nat))
         one_cause_and_c = (Done (Some 0%nat), m')
       /\ next_msgs 9 (heap m') (Some 0%nat) = ["a"; "c"; "b"]
       /\ next_msgs 9 (heap m') (Some 0%nat) ≠ ["a"; "b"; "c"].
Proof.
  do 4 (split; [reflexivity|]). eexists.
  split; [reflexivity|]. split; [reflexivity|done].
Qed.

Lemma accumulate3_Count_witness :
  exists (e : addr) (x : Error) (m' : memory),
    accumulate3 no_methods 4 (PtrError (Some 0%nat)) (PtrError (Some 1%nat))
      (PtrError (Some 2%nat)) abc = (Done (Some e), m')
    /\ heap m' !! e = Some x
    /\ Count x = 2 + 0.
Proof.
  apply (accumulate3_Count no_methods 0 abc (PtrError (Some 0%nat))
           (PtrError (Some 1%nat)) (PtrError (Some 2%nat)) 0 0 0);
    reflexivity.
Defined.

(** Three distinct errors made by [New], no one found from another by
    [Is]: the head's [Count] is 2, not 3. *)
Lemma accumulate3_Count_counterexample :
  Is no_methods 9 (heap abc) (PtrError (Some 0%nat)) (PtrError (Some 1%nat))
  = Done false
  /\ Is no_methods 9 (heap abc) (PtrError (Some 0%nat)) (PtrError (Some 2%nat))
     = Done false
  /\ Is no_methods 9 (heap abc) (PtrError (Some 1%nat)) (PtrError (Some 2%nat))
     = Done false
  /\ fst (three_New empty) = Done (Some 3%nat)
  /\ Count <$> heap (snd (three_New empty)) !! 3%nat = Some 2
  /\ Count <$> heap (snd (three_New empty)) !! 3%nat ≠ Some 3.
Proof. repeat split; done. Qed.

Lemma ErrorHandler_recovery_point_witness :
  exists (q : addr) (m2 : memory),
    defer_recover (ErrorHandler quiet)
      (liftM (Result_Check (mkResult 0 (errors_New 1)))) (mkWorld empty [])
    = (Done None, mkWorld m2 [Some q])
    /\ is_Some (heap m2 !! q).
Proof.
  destruct (proj1 (ErrorHandler_recovery_point Z (mkResult 0 (errors_New 1))
                     quiet (mkWorld empty [])) eq_refl I)
    as (p & q & m1 & m2 & _ & _ & Hq & E).
  exists q, m2. split; [exact E|exact Hq].
Defined.

(** A handler that panics: the scope does not end normally, the panic of
    the handler leaves it.  A nil panic value: the scope ends normally, the
    value is not raised again. *)
Lemma ErrorHandler_recovery_point_counterexample :
  fst (defer_recover (ErrorHandler loud)
         (liftM (Result_Check (mkResult 0 (errors_New 1))))
         (mkWorld empty []))
  = Abort (AnyVal (VString "boom"))
  /\ fst (defer_recover (ErrorHandler loud)
            (liftM (Result_Check (mkResult 0 (errors_New 1))))
            (mkWorld empty []))
     ≠ Done None
  /\ defer_recover (ErrorHandler quiet)
       (fun w => (Abort AnyNil, w) : res unit * world) (mkWorld empty [])
     = (Done None, mkWorld empty [])
  /\ defer_recover (ErrorHandler quiet)
       (fun w => (Abort AnyNil, w) : res unit * world) (mkWorld empty [])
     ≠ (Abort AnyNil, mkWorld empty []).
Proof. repeat split; done. Qed.

Lemma Check_fail_fast_witness :
  exists (p : addr) (m' : memory),
    CastOrWrap (errors_New 1) empty = (Done p, m')
    /\ Result_Check (mkResult 0 (errors_New 1)) empty
       = (Abort (AnyErr (PtrError (Some p))), m').
Proof.
  apply (proj1 (proj2 (Check_fail_fast Z (mkResult 0 (errors_New 1))
                         nil_error empty)));
    [reflexivity|exact I].
Defined.

Lemma Result_Handle_fail_through_witness :
  exists (p : addr) (m1 : memory),
    CastOrWrap (errors_New 1) empty = (Done p, m1)
    /\ Result_Handle (mkResult 7 (errors_New 1)) quiet (mkWorld empty [])
       = (Done 7, mkWorld m1 [Some p]).
Proof.
  destruct (proj2 (Result_Handle_fail_through Z (mkResult 7 (errors_New 1))
                     quiet (mkWorld empty [])) eq_refl I)
    as (p & m1 & Hc & E).
  exists p, m1. split; [exact Hc|exact E].
Defined.

(** A handler that panics: [Handle] does not return the value, the panic
    of the handler goes on. *)
Lemma Result_Handle_counterexample :
  fst (Result_Handle (mkResult 7 (errors_New 1)) loud (mkWorld empty []))
  = Abort (AnyVal (VString "boom"))
  /\ fst (Result_Handle (mkResult 7 (errors_New 1)) loud (mkWorld empty []))
     ≠ Done 7.
Proof. split; done. Qed.

Lemma CheckNotNil_reference_witness :
  CheckNotNil (Some 0%nat) "ni is pointing to a real value" empty
  = (Done (Some 0%nat), empty)
  /\ exists (p : addr) (m' : memory),
       CheckNotNil (None : option addr) "ni is now nil" empty
       = (Abort (AnyErr (PtrError (Some p))), m')
       /\ heap m' !! p = Some (mkError "ni is now nil" nil_error None 0).
Proof.
  split.
  - apply (proj1 (proj1 (@CheckNotNil_reference no_methods (option addr)
                           Reflect_ptr (Some 0%nat)
                           "ni is pointing to a real value" empty) eq_refl)).
    reflexivity.
  - destruct (proj2 (proj1 (@CheckNotNil_reference no_methods (option addr)
                              Reflect_ptr None "ni is now nil" empty) eq_refl)
                eq_refl)
      as (p & m' & E & _ & Hp).
    exists p, m'. split; [exact E|exact Hp].
Defined.

(** An interface-typed value: a nil interface, and an interface holding an
    [Error] struct, make [CheckNotNil] panic with reflection's error; the
    panic value is no [*Error] and no struct holds the message. *)
Lemma CheckNotNil_reference_counterexample :
  @CheckNotNil error (Reflect_error no_methods) nil_error "no error" empty
  = (Abort ValueError_panic, empty)
  /\ @CheckNotNil error (Reflect_error no_methods)
       (ValError (mkError "e" nil_error None 0)) "no error" empty
     = (Abort ValueError_panic, empty)
  /\ ValueError_panic ≠ AnyErr (PtrError (Some 0%nat)).
Proof. repeat split; done. Qed.

Lemma CheckNotNil_not_nilable_witness :
  CheckNotNil 5 "five" empty = (Abort ValueError_panic, empty).
Proof.
  apply (proj1 (@CheckNotNil_not_nilable Z Reflect_int 5 "five" empty eq_refl)).
Defined.



(** * Further properties *)

(** ** Identity *)

Lemma equal_identity ms (e : error) :
  identity_comparable ms e = true -> equal ms e e = Done true.
Proof.
  destruct e as [|p|x|t i inner|t p inner]; try done; unfold equal; cbn.
  - by rewrite bool_decide_eq_true_2.
  - intros [Hc Hv]%andb_prop. rewrite bool_decide_eq_true_2, Hc by done.
    by destruct (value_eq ms t i i) as [[|]| |].
  - by rewrite !bool_decide_eq_true_2.
Qed.

Lemma identity_Comparable ms (e : error) :
  identity_comparable ms e = true ->
  exists t : gtype, TypeOf e = Some t /\ Comparable t = true.
Proof.
  destruct e; try done; cbn; eauto.
  intros [Hc _]%andb_prop. eauto.
Qed.

Lemma equal_PtrError_l {ms : Methods} (p : option addr) (x : error) :
  exists b : bool, equal ms (PtrError p) x = Done b.
Proof. destruct x; unfold equal; cbn; eauto. Qed.

(** X1.  [Is(e, e)] is true for every pointer, and for every foreign value
    of a comparable type on which [e == e] holds, whatever the heap holds
    and whatever the methods of [e] would do: the first comparison
    decides. *)
Theorem Is_reflexive ms (n : nat) (h : list Error) (e : error) :
  identity_comparable ms e = true -> Is ms (S n) h e e = Done true.
Proof.
  intros He. destruct (identity_Comparable _ _ He) as (t & Ht & Hc).
  unfold Is. by rewrite Ht, Is_loop_S, Hc, (equal_identity _ _ He).
Qed.

(** X2.  [Is(e, e)] is false for a foreign value of a type that is not
    comparable and has neither an Is nor an Unwrap method: the comparison
    is skipped and nothing else can match. *)
Theorem Is_uncomparable_self ms (n : nat) (h : list Error) (t : ftype)
    (i : nat) (inner : error) :
  fcomparable t = false ->
  asserts (ForeignVal t i inner) MIs = false ->
  asserts (ForeignVal t i inner) MUnwrap = false ->
  Is ms (S n) h (ForeignVal t i inner) (ForeignVal t i inner) = Done false.
Proof.
  intros Hc HIs Hu. unfold Is. cbn [TypeOf Comparable].
  rewrite Is_loop_S, Hc, HIs. unfold Unwrap. by rewrite Hu.
Qed.

(** X3.  nil: [Is(nil, nil)] is true; [Is(err, nil)] and [Is(nil, err)] are
    false for an error that is not nil. *)
Theorem Is_nil ms (n : nat) (h : list Error) (err : error) :
  Is ms n h nil_error nil_error = Done true
  /\ (is_nil err = false ->
      Is ms n h err nil_error = Done false
      /\ Is ms (S n) h nil_error err = Done false).
Proof.
  split; [done|]. intros Hn. split; [unfold Is; cbn; by rewrite Hn|].
  unfold Is. destruct err as [|p|x|t i inner|t p inner]; try done;
    cbn [TypeOf]; rewrite Is_loop_S; unfold equal; cbn;
    try destruct (fcomparable t); done.
Qed.

Lemma equal_pointer_target ms (x tgt : error) :
  pointer_or_nil tgt = true -> exists b : bool, equal ms x tgt = Done b.
Proof.
  destruct tgt; try done; destruct x; unfold equal; cbn; eauto.
Qed.

(** A panic of [Unwrap] is the panic of a foreign Unwrap method. *)
Lemma Unwrap_panic ms (h : list Error) (err : error) (v : any) :
  Unwrap ms h err = Abort v ->
  foreign err = true /\ asserts err MUnwrap = true
  /\ method_Unwrap ms err = Abort v.
Proof.
  unfold Unwrap, Error_Unwrap, load. unfold_monad.
  destruct (asserts err MUnwrap) eqn:Hu; [|done].
  destruct err as [|[p|]|x|t i inner|t p inner]; cbn;
    repeat case_match; done.
Qed.

(** X4.  With a target that is a pointer or nil, [Is] raises no panic of
    its own: a panic that comes out of it is the panic of the Is or the
    Unwrap method of a foreign error. *)
Theorem Is_pointer_target_no_panic ms (n : nat) (h : list Error)
    (err tgt : error) (v : any) :
  pointer_or_nil tgt = true ->
  Is ms n h err tgt = Abort v ->
  exists x : error,
    foreign x = true
    /\ (asserts x MIs = true /\ method_Is ms x tgt = Abort v
        \/ asserts x MUnwrap = true /\ method_Unwrap ms x = Abort v).
Proof.
  intros Ht. unfold Is. destruct (TypeOf tgt) as [t|]; [|done].
  revert err. induction n as [|n IH]; intros err; [done|].
  rewrite Is_loop_S.
  destruct (equal_pointer_target ms err tgt Ht) as [b Hb].
  assert (Hc : (if Comparable t then equal ms err tgt else Done false)
               = Done true
               \/ (if Comparable t then equal ms err tgt else Done false)
                  = Done false).
  { destruct (Comparable t); [rewrite Hb; destruct b|]; auto. }
  destruct Hc as [-> | ->]; [done|].
  destruct (asserts err MIs) eqn:HIs.
  - destruct (method_Is ms err tgt) as [[|]|v'|] eqn:Hm; try done.
    + destruct (Unwrap ms h err) as [err'|v'|] eqn:Hu; try done.
      * destruct (is_nil err'); [done|apply IH].
      * intros [= ->]. destruct (Unwrap_panic _ _ _ _ Hu) as (? & ? & ?).
        exists err. auto.
    + intros [= ->]. exists err. split; [|auto].
      by destruct err as [|p|x|t' i inner|t' p inner].
  - destruct (Unwrap ms h err) as [err'|v'|] eqn:Hu; try done.
    + destruct (is_nil err'); [done|apply IH].
    + intros [= ->]. destruct (Unwrap_panic _ _ _ _ Hu) as (? & ? & ?).
      exists err. auto.
Qed.

(** X5.  [Is] on two [Error] values with the same message whose causes are
    values of one type that is not comparable panics: the struct type is
    comparable for reflection, the comparison of the causes is not. *)
Theorem Is_Error_values_panic ms (n : nat) (h : list Error) (s : string)
    (t : ftype) (i j : nat) (c c' : error) (nx nx' : option addr)
    (k k' : Z) :
  fcomparable t = false ->
  Is ms (S n) h (ValError (mkError s (ForeignVal t i c) nx k))
    (ValError (mkError s (ForeignVal t j c') nx' k'))
  = Abort uncomparable_panic.
Proof.
  intros Hc. unfold Is. cbn [TypeOf Comparable]. rewrite Is_loop_S.
  unfold equal. cbn.
  rewrite (bool_decide_eq_true_2 (s = s)) by done.
  rewrite (bool_decide_eq_true_2 (t = t)) by done. by rewrite Hc.
Qed.

Lemma Wrap_times_Is ms (tgt : error) (cmp : bool) (msgs : list string) :
  forall (err e' : error) (m m' : memory) (j : nat),
    Wrap_times msgs err m = (Done e', m') ->
    is_nil err = false ->
    (forall h' : list Error,
       extends (heap m) h' -> Is_loop ms (S j) h' cmp err tgt = Done true) ->
    forall h' : list Error,
      extends (heap m') h' ->
      Is_loop ms (S (length msgs + j)) h' cmp e' tgt = Done true.
Proof.
  induction msgs as [|s rest IH]; intros err e' m m' j E Hn H0 h' He.
  - injection E as <- <-. by apply H0.
  - cbn [Wrap_times] in E. unfold Wrap, alloc in E. unfold_monad.
    cbn [length]. rewrite Nat.add_succ_l, <- Nat.add_succ_r.
    refine (IH _ _ _ _ (S j) E eq_refl _ h' He).
    intros h1 H1. cbn [heap] in H1. rewrite Is_loop_S.
    destruct (@equal_PtrError_l ms (Some (length (heap m))) tgt) as [b ->].
    assert (Hw : h1 !! length (heap m) = Some (mkError s err None 1))
      by (apply H1, lookup_fresh).
    rewrite (Unwrap_PtrError _ _ _ Hw). cbn [next cause andb asserts].
    replace (asserts (PtrError (Some (length (heap m)))) MIs) with false
      by done.
    rewrite Hn, H0; [by destruct cmp, b|].
    eapply extends_trans; [apply extends_app|exact H1].
Qed.

(** X6.  Identity survives any depth of wrapping: after wrapping [e], a
    pointer or a foreign value on which [e == e] holds, any number of
    times, [Is] finds [e] from the outermost wrapper. *)
Theorem Is_survives_wraps ms (msgs : list string) (e e' : error)
    (m m' : memory) (n : nat) :
  identity_comparable ms e = true ->
  Wrap_times msgs e m = (Done e', m') ->
  Is ms (S (length msgs + n)) (heap m') e' e = Done true.
Proof.
  intros He E. destruct (identity_Comparable _ _ He) as (t & Ht & Hc).
  unfold Is. rewrite Ht.
  apply (Wrap_times_Is ms e (Comparable t) msgs e e' m m' n E).
  - by destruct e.
  - intros h' _. by rewrite Is_loop_S, Hc, (equal_identity _ _ He).
  - by intros ? ?.
Qed.

(** ** Coercion and augmentation *)

(** X7.  [dereference] strips at most one level and is idempotent: its
    result is never a live [*Error], dereferencing it again changes
    nothing, and nil stays nil. *)
Theorem dereference_idempotent (h : list Error) (err de : error) :
  dereference h err = Done de ->
  dereference h de = Done de
  /\ (forall p : addr, de <> PtrError (Some p))
  /\ is_nil de = is_nil err.
Proof.
  unfold dereference, Elem, load. unfold_monad.
  destruct err as [|[p|]|x|t i inner|t [i|] inner]; cbn;
    repeat case_match; intros; simplify_eq; cbn;
    repeat case_match; simplify_eq; try done;
    unfold asserts in *; cbn in *; congruence.
Qed.

(** X8.  [CastOrWrap] of a live [*Error] returns a new pointer to a copy;
    whatever [WithCause] then does to that copy, the original struct stays
    as it was. *)
Theorem CastOrWrap_copy_is_independent ms (n : nat) (p q : addr)
    (x : Error) (err : error) (m m1 m2 : memory) (r : option addr) :
  heap m !! p = Some x ->
  CastOrWrap (PtrError (Some p)) m = (Done q, m1) ->
  WithCause ms n (Some q) err m1 = (Done r, m2) ->
  q <> p /\ heap m1 !! q = Some x /\ heap m2 !! p = Some x.
Proof.
  intros Hp Hc Hw. pose proof (lookup_lt_Some _ _ _ Hp) as Hlt.
  apply CastOrWrap_inv in Hc as (x' & Hx' & -> & ->).
  rewrite (coerced_PtrError _ _ _ Hp) in Hx'. injection Hx' as <-.
  apply WithCause_frame in Hw as (_ & _ & Hf). cbn [heap] in *.
  split; [lia|]. split; [apply lookup_fresh|].
  rewrite Hf; [by rewrite lookup_app_l|rewrite length_app; lia|intros [=]; lia].
Qed.

(** [CastOrWrap] wraps what is neither a live [*Error] nor an [Error]
    value in a struct of its own. *)
Lemma CastOrWrap_wrapper (err : error) (m : memory) :
  wrapped_by_cast err = true ->
  CastOrWrap err m
  = (Done (length (heap m)),
     mkMemory (heap m ++ [mkError "cast to eros.Error" err None 1]) (vars m)).
Proof.
  intros Hw. apply CastOrWrap_coerced. unfold coerced, dereference, Elem.
  unfold_monad.
  destruct err as [|[p|]|x|t i inner|t [i|] inner]; try done; cbn;
    repeat case_match; simplify_eq; done.
Qed.

(** X9.  [CastOrWrap] of anything that is not a live [*Error] or an [Error]
    value (nil and a nil [*Error] included) allocates a wrapper of count 1
    whose cause, and so whose Unwrap, is the argument. *)
Theorem CastOrWrap_wraps ms (err : error) (m : memory) :
  wrapped_by_cast err = true ->
  CastOrWrap err m
  = (Done (length (heap m)),
     mkMemory (heap m ++ [mkError "cast to eros.Error" err None 1]) (vars m))
  /\ Unwrap ms (heap m ++ [mkError "cast to eros.Error" err None 1])
       (PtrError (Some (length (heap m)))) = Done err.
Proof.
  intros Hw. split; [by apply CastOrWrap_wrapper|].
  by rewrite (Unwrap_PtrError _ _ _ (lookup_fresh _ _)).
Qed.

(** X10.  [WithCause] writes to its receiver and to structs it allocates,
    and to nothing else: the heap does not shrink, the store of variables
    is unchanged, and every struct that existed before the call, the
    receiver apart, is as it was.  On a nil receiver no existing struct
    changes at all. *)
Theorem WithCause_writes_only_receiver ms (n : nat) (e : option addr)
    (err : error) (m m' : memory) (r : option addr) :
  WithCause ms n e err m = (Done r, m') ->
  (length (heap m) <= length (heap m'))%nat
  /\ vars m' = vars m
  /\ (forall (a : addr) (x : Error),
        heap m !! a = Some x -> e <> Some a -> heap m' !! a = Some x).
Proof.
  intros E. destruct (WithCause_frame _ _ _ _ _ _ _ E) as (Hl & Hv & Hf).
  split; [done|]. split; [done|]. intros a x Ha Hne.
  rewrite Hf; [done|by eapply lookup_lt_Some|done].
Qed.

(** X11.  The chain started by [e := nil.WithCause(p)] from a [*Error] made
    by [New] holds a copy of it: [Is(e, p)] is false, and [e.WithCause(p)]
    attaches the same error once more, as the cause of its own copy. *)
Theorem WithCause_nil_receiver_forgets ms (n k : nat) (p : addr)
    (s : string) (m : memory) :
  heap m !! p = Some (mkError s nil_error None 0) ->
  exists (q : addr) (m1 m2 : memory),
    WithCause ms (S n) None (PtrError (Some p)) m = (Done (Some q), m1)
    /\ q <> p
    /\ Is ms (S k) (heap m1) (PtrError (Some q)) (PtrError (Some p))
       = Done false
    /\ WithCause ms (S (S k)) (Some q) (PtrError (Some p)) m1
       = (Done (Some q), m2)
    /\ heap m2 !! q = Some (mkError s nil_error (Some (S q)) 1)
    /\ heap m2 !! S q = Some (mkError s nil_error None 0).
Proof.
  intros Hp. pose proof (lookup_lt_Some _ _ _ Hp) as Hlt.
  set (x := mkError s nil_error None 0) in *.
  set (q := length (heap m)). set (m1 := mkMemory (heap m ++ [x]) (vars m)).
  assert (Hq : heap m1 !! q = Some x) by apply lookup_fresh.
  assert (Hp1 : heap m1 !! p = Some x) by (cbn; by rewrite lookup_app_l).
  assert (HIs : forall j, Is ms (S j) (heap m1) (PtrError (Some q))
                            (PtrError (Some p)) = Done false).
  { intros j. unfold Is. cbn [TypeOf Comparable].
    rewrite Is_loop_S, equal_PtrError, (Unwrap_PtrError _ _ _ Hq).
    rewrite bool_decide_eq_false_2; [done|]. intros [=]. lia. }
  exists q, m1. eexists.
  split.
  { rewrite WithCause_nil. unfold_monad.
    by rewrite (CastOrWrap_coerced _ _ _ (coerced_PtrError _ _ _ Hp)). }
  split; [unfold q; lia|]. split; [apply HIs|].
  rewrite (WithCause_first_link ms (S k) q (PtrError (Some p)) m1 x x Hq
             eq_refl eq_refl (HIs k) (coerced_PtrError _ _ _ Hp1)).
  split; [reflexivity|]. cbn [heap m1].
  assert (Hlen : length (heap m ++ [x]) = S q)
    by (rewrite length_app; cbn; unfold q; lia).
  rewrite Hlen. split.
  - apply list_lookup_insert_eq. rewrite length_app, Hlen. lia.
  - rewrite list_lookup_insert_ne by lia. rewrite <- Hlen. apply lookup_fresh.
Qed.

(** What [e := New(s); w := Wrap(e, t); e.WithCause(w)] leaves. *)
Lemma wrap_and_attach_result ms (n : nat) (s t : string) (m : memory) :
  exists m' : memory,
    wrap_and_attach ms (3 + n) s t m = (Done (Some (length (heap m))), m')
    /\ heap m' !! length (heap m)
       = Some (mkError s nil_error (Some (S (S (length (heap m))))) 2)
    /\ heap m' !! S (S (length (heap m)))
       = Some (mkError t (PtrError (Some (length (heap m)))) None 1).
Proof.
  set (e := length (heap m)).
  set (xe := mkError s nil_error None 0).
  set (xw := mkError t (PtrError (Some e)) None 1).
  set (m2 := mkMemory ((heap m ++ [xe]) ++ [xw]) (vars m)).
  set (w := length (heap m ++ [xe])).
  assert (Hw : w = S e) by (unfold w, e; rewrite length_app; cbn; lia).
  assert (Hlen2 : length (heap m2) = S (S e)).
  { cbn. rewrite length_app. fold w. rewrite Hw. cbn. lia. }
  assert (He : heap m2 !! e = Some xe).
  { cbn. rewrite lookup_app_l by (fold w; lia). apply lookup_fresh. }
  assert (Hxw : heap m2 !! w = Some xw) by apply lookup_fresh.
  assert (HIs : Is ms (2 + n) (heap m2) (PtrError (Some e))
                  (PtrError (Some w)) = Done false).
  { unfold Is. cbn [TypeOf Comparable Nat.add].
    rewrite Is_loop_S, equal_PtrError, (Unwrap_PtrError _ _ _ He).
    rewrite bool_decide_eq_false_2; [done|]. intros [=]. lia. }
  pose proof (WithCause_first_link ms (2 + n) e (PtrError (Some w)) m2 xe xw
                He eq_refl eq_refl HIs (coerced_PtrError _ _ _ Hxw)) as E.
  rewrite Hlen2 in E. cbn [msg cause count xe xw] in E.
  eexists. split; [|split].
  - unfold wrap_and_attach, New, Wrap, alloc. unfold_monad. cbn [heap vars].
    fold xe e xw m2 w. exact E.
  - cbn [heap]. apply list_lookup_insert_eq. rewrite length_app, Hlen2. lia.
  - cbn [heap]. rewrite list_lookup_insert_ne by lia.
    rewrite <- Hlen2. apply lookup_fresh.
Qed.

(** X12.  [WithCause] can close a cycle: after
    [e := New(s); w := Wrap(e, t); e.WithCause(w)] the link Unwrap yields
    from [e] unwraps to [e] again, and [Is] from [e] for any [*Error] that
    existed before does not return, whatever the fuel. *)
Theorem WithCause_closes_cycle ms (n : nat) (s t : string) (m : memory) :
  exists (e v : addr) (m' : memory),
    wrap_and_attach ms (3 + n) s t m = (Done (Some e), m')
    /\ v <> e
    /\ Unwrap ms (heap m') (PtrError (Some e)) = Done (PtrError (Some v))
    /\ Unwrap ms (heap m') (PtrError (Some v)) = Done (PtrError (Some e))
    /\ forall (k : nat) (a : addr),
         (a < length (heap m))%nat ->
         Is ms k (heap m') (PtrError (Some e)) (PtrError (Some a))
         = Fault OutOfFuel.
Proof.
  destruct (wrap_and_attach_result ms n s t m) as (m' & E & He & Hv).
  exists (length (heap m)), (S (S (length (heap m)))), m'.
  split; [exact E|]. split; [lia|].
  split; [by rewrite (Unwrap_PtrError _ _ _ He)|].
  split; [by rewrite (Unwrap_PtrError _ _ _ Hv)|].
  intros k a Ha. unfold Is. cbn [TypeOf Comparable].
  enough (Is_loop ms k (heap m') true (PtrError (Some (length (heap m))))
            (PtrError (Some a)) = Fault OutOfFuel
          /\ Is_loop ms k (heap m') true
               (PtrError (Some (S (S (length (heap m))))))
               (PtrError (Some a)) = Fault OutOfFuel) by tauto.
  induction k as [|k [IHe IHv]]; [done|].
  rewrite !Is_loop_S, !equal_PtrError.
  rewrite (Unwrap_PtrError _ _ _ He), (Unwrap_PtrError _ _ _ Hv).
  rewrite !bool_decide_eq_false_2 by (intros [=]; lia).
  cbn. by split.
Qed.

(** X13.  Unwrap prefers [next] to [cause], so attaching hides what was
    wrapped: [Is(e, c)] is true for [e := Wrap(c, s)] and false once
    [e.WithCause(d)] has attached another foreign leaf error [d], although
    [c] is still the cause of [e]. *)
Theorem WithCause_hides_cause ms (n : nat) (s : string) (c d : error)
    (m : memory) :
  leaf_depth (heap m) c = Some 1 -> leaf_depth (heap m) d = Some 1 ->
  identity_comparable ms c = true ->
  Is ms (S n) (heap m) c d = Done false ->
  Is ms (S n) (heap m) d c = Done false ->
  exists (p : addr) (m1 m2 : memory),
    Wrap c s m = (Done p, m1)
    /\ Is ms (2 + n) (heap m1) (PtrError (Some p)) c = Done true
    /\ WithCause ms (3 + n) (Some p) d m1 = (Done (Some p), m2)
    /\ cause <$> heap m2 !! p = Some c
    /\ Is ms (3 + n) (heap m2) (PtrError (Some p)) c = Done false.
Proof.
  intros Lc Ld Hid Hcd Hdc.
  destruct (identity_Comparable _ _ Hid) as (tc & Htc & Hcmp).
  destruct (leaf_TypeOf _ _ _ Ld) as [td Htd].
  assert (Hforeign : forall x, leaf_depth (heap m) x = Some 1 ->
            forall q, equal ms (PtrError (Some q)) x = Done false).
  { intros x Lx q. unfold leaf_depth in Lx.
    destruct x as [|[a|]|y|t i inner|t i inner]; try done.
    repeat case_match; simplify_eq. }
  set (p := length (heap m)). set (xp := mkError s c None 1).
  set (h1 := heap m ++ [xp]).
  assert (E01 : extends (heap m) h1) by apply extends_app.
  assert (Hp : h1 !! p = Some xp) by apply lookup_fresh.
  assert (Hnc : is_nil c = false) by (eapply leaf_not_nil; exact Lc).
  assert (Hnd : is_nil d = false) by (eapply leaf_not_nil; exact Ld).
  destruct (leaf_coerced _ _ _ Ld h1 E01) as (xd & Hxd & Hnxd & Hkd & Hcd').
  destruct Hcd' as [Hcd'|[Hcd' _]].
  { (* a foreign leaf is wrapped, so its coercion has a cause *)
    exfalso. unfold leaf_depth in Ld.
    destruct d as [|[a|]|y|t i inner|t [i|] inner]; try done;
      [repeat case_match; simplify_eq|..];
      unfold coerced, dereference, Elem in Hxd; unfold_monad;
      cbn in Hxd; repeat case_match; simplify_eq; done. }
  exists p, (mkMemory h1 (vars m)). eexists.
  split; [reflexivity|]. cbn [heap].
  split.
  { unfold Is. cbn [Nat.add]. rewrite Htc, Is_loop_S, (Hforeign c Lc p).
    rewrite (Unwrap_PtrError _ _ _ Hp).
    replace (asserts (PtrError (Some p)) MIs) with false by done.
    cbn [next cause xp andb].
    by rewrite Hnc, Is_loop_S, Hcmp, (equal_identity _ _ Hid). }
  assert (HIsd : Is ms (2 + n) h1 (PtrError (Some p)) d = Done false).
  { apply (Is_from_cell ms n h1 p xp d td Hp eq_refl (Hforeign d Ld p) Htd).
    right. cbn [cause xp].
    rewrite (leaf_Is_loop ms _ _ _ Lc h1 _ _ _ E01).
    unfold Is in Hcd. rewrite Htd in Hcd.
    by rewrite (leaf_Is_loop ms _ _ _ Lc (heap m)) in Hcd by by intros ? ?. }
  change (3 + n)%nat with (S (2 + n)).
  rewrite (WithCause_first_link ms (2 + n) p d (mkMemory h1 (vars m)) xp xd
             Hp eq_refl Hnd HIsd Hxd).
  split; [reflexivity|]. cbn [heap vars msg cause xp].
  set (v := length h1). set (cp := mkError s c (Some v) (wrap64 (count xd + 1))).
  set (h2 := <[p := cp]> (h1 ++ [xd])).
  assert (Hp2 : h2 !! p = Some cp).
  { apply list_lookup_insert_eq. unfold h1, p. rewrite !length_app.
    cbn [length]. lia. }
  assert (Hv2 : h2 !! v = Some xd).
  { unfold h2. rewrite list_lookup_insert_ne; [apply lookup_fresh|].
    unfold v, h1, p. rewrite length_app. cbn. lia. }
  assert (E02 : extends (heap m) h2).
  { apply extends_insert_fresh; [|unfold p; lia].
    eapply extends_trans; [exact E01|apply extends_app]. }
  split; [by rewrite Hp2|].
  apply (Is_via_next ms (2 + n) h2 p v cp c Hp2 eq_refl (Hforeign c Lc p)).
  apply (Is_from_cell ms n h2 v xd c tc Hv2 Hnxd (Hforeign c Lc v) Htc).
  right. rewrite Hcd'.
  rewrite (leaf_Is_loop ms _ _ _ Ld h2 _ _ _ E02).
  unfold Is in Hdc. rewrite Htc in Hdc.
  by rewrite (leaf_Is_loop ms _ _ _ Ld (heap m)) in Hdc by by intros ? ?.
Qed.

(** ** Accumulation of leaf errors *)

Lemma stack_next_msgs (h : list Error) (o : option addr) (ss : list string) :
  stack h o ss ->
  forall k : nat, (length ss <= k)%nat -> next_msgs k h o = ss.
Proof.
  induction 1 as [|p s nx rest Hp _ IH]; intros k Hk.
  - by destruct k.
  - destruct k as [|k]; [cbn in Hk; lia|].
    cbn [next_msgs]. rewrite Hp. cbn [msg next]. f_equal.
    apply IH. cbn in Hk. lia.
Qed.

(** A write to a struct whose count is at least the length of the chain
    does not touch the chain. *)
Lemma stack_frame (h h' : list Error) (o : option addr) (ss : list string)
    (p : addr) (x : Error) (k : nat) :
  stack h o ss ->
  h !! p = Some x -> count x = Z.of_nat k -> (length ss <= k)%nat ->
  (forall a : addr, (a < length h)%nat -> a <> p -> h' !! a = h !! a) ->
  stack h' o ss.
Proof.
  intros Hs Hp Hc. induction Hs as [|b s nx rest Hb _ IH]; intros Hk Hf.
  - constructor.
  - cbn [length] in Hk. apply (stack_cons _ b s nx rest); [|apply IH; [lia|done]].
    rewrite Hf; [done|by eapply lookup_lt_Some|].
    intros ->. rewrite Hp in Hb. injection Hb as ->. cbn in Hc. lia.
Qed.

(** [Is] does not find in a chain a pointer allocated after it. *)
Lemma stack_Is_fresh ms (h0 h : list Error) (p : addr) (ss : list string)
    (a : addr) :
  stack h0 (Some p) ss -> extends h0 h -> (length h0 <= a)%nat ->
  Is ms (S (length ss)) h (PtrError (Some p)) (PtrError (Some a))
  = Done false.
Proof.
  intros Hs He Ha. remember (Some p) as o eqn:Ho. revert p Ho.
  induction Hs as [|b s nx rest Hb Hrest IH]; intros p [= <-].
  assert (Hne : equal ms (PtrError (Some b)) (PtrError (Some a)) = Done false).
  { rewrite equal_PtrError, bool_decide_eq_false_2; [done|].
    intros [=]. apply lookup_lt_Some in Hb. lia. }
  inversion Hrest as [|q t nxq rest' Hq Hrest']; subst.
  - apply (Is_from_cell ms 0 h b _ _ TPtrError (He _ _ Hb) eq_refl Hne eq_refl).
    by left.
  - apply (Is_via_next ms _ h b q _ _ (He _ _ Hb) eq_refl Hne).
    exact (IH q eq_refl).
Qed.

Lemma attach_step ms (n : nat) (p : addr) (s t : string) (acc : list string)
    (m : memory) :
  stack (heap m) (Some p) (s :: acc) ->
  (length acc + 3 <= n)%nat ->
  Z.of_nat (length acc) + 2 < 2 ^ 63 ->
  exists m' : memory,
    (a ← New t; WithCause ms n (Some p) (PtrError (Some a))) m
    = (Done (Some p), m')
    /\ stack (heap m') (Some p) (s :: t :: acc).
Proof.
  intros Hs Hn Hsmall. inversion Hs as [|? ? nx ? Hp Hacc]; subst.
  set (xt := mkError t nil_error None 0).
  set (a := length (heap m)). set (h1 := heap m ++ [xt]).
  assert (E01 : extends (heap m) h1) by apply extends_app.
  assert (Ha : h1 !! a = Some xt) by apply lookup_fresh.
  assert (Hp1 : h1 !! p = Some (mkError s nil_error nx (Z.of_nat (length acc))))
    by by apply E01.
  assert (Hlt : (p < a)%nat) by by eapply lookup_lt_Some.
  assert (Hlen1 : length h1 = S a)
    by (unfold h1, a; rewrite length_app; cbn; lia).
  assert (HIs : forall j : nat, (length acc + 2 <= j)%nat ->
            Is ms j h1 (PtrError (Some p)) (PtrError (Some a)) = Done false).
  { intros j Hj.
    apply (Is_mono ms _ _ _ _ _
             (stack_Is_fresh ms (heap m) h1 p (s :: acc) a Hs E01 (le_n _))).
    cbn [length]. lia. }
  unfold New, alloc. unfold_monad. fold xt a h1.
  destruct n as [|n]; [lia|].
  inversion Hacc as [|q t0 nxq rest Hq Hrest]; subst.
  - (* the head has no link yet *)
    rewrite (WithCause_first_link ms n p (PtrError (Some a))
               (mkMemory h1 (vars m)) _ xt Hp1 eq_refl eq_refl
               (HIs n ltac:(cbn; cbn in Hn; lia))
               (coerced_PtrError _ _ _ Ha)).
    eexists. split; [reflexivity|]. cbn [heap msg cause count xt length].
    rewrite Hlen1.
    apply (stack_cons _ p s (Some (S a)) [t]).
    + replace (wrap64 (0 + 1)) with (Z.of_nat (length [t])) by done.
      apply list_lookup_insert_eq. rewrite length_app, Hlen1. lia.
    + apply (stack_cons _ (S a) t None []); [|constructor].
      rewrite list_lookup_insert_ne by lia.
      rewrite <- Hlen1. apply lookup_fresh.
  - (* the head has a link: the new struct takes a copy of it *)
    destruct n as [|n]; [cbn in Hn; lia|].
    set (xq := mkError t0 nil_error nxq (Z.of_nat (length rest))) in *.
    assert (Hq1 : h1 !! q = Some xq) by by apply E01.
    assert (HIs' : Is ms n (h1 ++ [xt]) (PtrError (Some (length h1)))
                     (PtrError (Some q)) = Done false).
    { apply (Is_mono ms 2); [|cbn in Hn; lia].
      apply (Is_from_cell ms 0 _ _ xt _ TPtrError (lookup_fresh _ _) eq_refl);
        [|done|by left].
      rewrite equal_PtrError, bool_decide_eq_false_2; [done|].
      intros [=]. apply lookup_lt_Some in Hq1. lia. }
    destruct (WithCause_merge_leaf ms n p q (PtrError (Some a))
                (mkMemory h1 (vars m)) _ xq xt Hp1 eq_refl Hq1 eq_refl
                (HIs (S n) ltac:(cbn; cbn in Hn; lia))
                (coerced_PtrError _ _ _ Ha) eq_refl HIs')
      as (m' & E & Hp' & Hv' & Hw').
    pose proof (WithCause_frame _ _ _ _ _ _ _ E) as (_ & _ & Hf).
    cbn [heap msg cause count xq xt] in *. rewrite Hlen1 in *.
    exists m'. split; [exact E|].
    assert (Hc1 : wrap64 (Z.of_nat (length rest) + 1)
                  = Z.of_nat (length (t0 :: rest))).
    { cbn [length] in *. rewrite wrap64_small; lia. }
    assert (Hc2 : wrap64 (wrap64 (Z.of_nat (length rest) + 1) + 1)
                  = Z.of_nat (length (t :: t0 :: rest))).
    { rewrite Hc1. cbn [length] in *. rewrite wrap64_small; lia. }
    apply (stack_cons _ p s (Some (S a)) (t :: t0 :: rest));
      [by rewrite Hp', Hc2|].
    apply (stack_cons _ (S a) t (Some (S (S a))) (t0 :: rest));
      [by rewrite Hv', Hc1|].
    apply (stack_cons _ (S (S a)) t0 nxq rest); [exact Hw'|].
    apply (stack_frame (heap m) (heap m') nxq rest p _ (length (t0 :: rest))
             Hrest Hp eq_refl); [cbn; lia|].
    intros b Hb Hne. rewrite Hf; [by apply lookup_app_l|lia|congruence].
Qed.

Lemma attach_News_stack ms (n : nat) (p : addr) (s : string)
    (ts : list string) :
  forall (m : memory) (acc : list string),
    stack (heap m) (Some p) (s :: acc) ->
    (length acc + length ts + 2 <= n)%nat ->
    Z.of_nat (length acc + length ts) + 1 < 2 ^ 63 ->
    exists m' : memory,
      attach_News ms n p ts m = (Done tt, m')
      /\ stack (heap m') (Some p) (s :: rev ts ++ acc).
Proof.
  induction ts as [|t ts IH]; intros m acc Hs Hn Hsmall.
  - exists m. by split.
  - cbn [length] in Hn, Hsmall.
    destruct (attach_step ms n p s t acc m Hs) as (m1 & E1 & Hs1);
      [lia|lia|].
    destruct (IH m1 (t :: acc) Hs1) as (m' & E & Hs');
      [cbn [length]; lia|cbn [length]; lia|].
    exists m'. split.
    + cbn [attach_News]. unfold_monad. unfold_monad.
      unfold New, alloc in E1. unfold_monad.
      unfold New, alloc. by rewrite E1.
    + cbn [rev]. by rewrite <- app_assoc.
Qed.

(** X14.  Leaf errors made by [New] and attached one after the other to a
    head made by [New] form a stack: Unwrap yields them newest first, and
    the head's [Count] is the number of errors attached. *)
Theorem attach_News_newest_first ms (n : nat) (s : string)
    (ts : list string) (m : memory) :
  (length ts + 2 <= n)%nat ->
  Z.of_nat (length ts) + 1 < 2 ^ 63 ->
  exists (p : addr) (x : Error) (m' : memory),
    (p ← New s; attach_News ms n p ts;; mret p) m = (Done p, m')
    /\ heap m' !! p = Some x
    /\ Count x = Z.of_nat (length ts)
    /\ next_msgs (S (length ts)) (heap m') (Some p) = s :: rev ts.
Proof.
  intros Hn Hsmall.
  set (m0 := mkMemory (heap m ++ [mkError s nil_error None 0]) (vars m)).
  assert (Hs : stack (heap m0) (Some (length (heap m))) [s]).
  { apply (stack_cons _ _ s None []); [apply lookup_fresh|constructor]. }
  destruct (attach_News_stack ms n _ s ts m0 [] Hs) as (m' & E & Hs');
    [cbn; lia|cbn; lia|].
  rewrite app_nil_r in Hs'.
  inversion Hs' as [|? ? nx ? Hp Hrest]; subst.
  exists (length (heap m)). eexists. exists m'.
  split; [|split; [exact Hp|split]].
  - unfold New, alloc. unfold_monad. fold m0. by rewrite E.
  - cbn [Count count]. by rewrite length_rev.
  - apply (stack_next_msgs _ _ _ Hs'). cbn [length]. rewrite length_rev. lia.
Qed.

(** ** The recovery point and what reaches it *)

(** X15.  The panic of [As] on a target it refuses (nil, not a pointer, a
    nil pointer, or a pointer to a type that is neither an interface nor
    an error) is a string, raised before the error is looked at; it passes
    a scope guarded by [ErrorHandler] as it is: the same value is raised
    again, the handler is not run and the memory is not written to. *)
Theorem ErrorHandler_passes_through ms (handler : Handler) (n : nat)
    (err : error) (tgt : target) (w : world) :
  refused_target tgt = true ->
  exists s : string,
    As ms n err tgt (mem w) = (Abort (AnyVal (VString s)), mem w)
    /\ defer_recover (ErrorHandler handler) (liftM (As ms n err tgt)) w
       = (Abort (AnyVal (VString s)), w).
Proof.
  intros Ht. unfold defer_recover, liftM.
  assert (E : exists s : string,
            As ms n err tgt (mem w) = (Abort (AnyVal (VString s)), mem w)).
  { destruct tgt as [|k|T [l|]]; try (eexists; reflexivity).
    unfold As. cbn [refused_target] in Ht. rewrite Ht.
    eexists. reflexivity. }
  destruct E as [s E]. exists s. split; [exact E|].
  rewrite E. cbn. by destruct w.
Qed.

(** X16.  The panic of reflection in [CheckNotNil] on a value of a kind
    that cannot be nil is an error, so [ErrorHandler] catches it: the
    handler is run once, on a wrapper around reflection's error, and the
    scope ends as the handler ends.  The message given to [CheckNotNil] is
    in no struct. *)
Theorem ErrorHandler_catches_reflection (T : Type) `{Reflect T} (val : T)
    (message : string) (handler : Handler) (w : world) :
  nilable (vkind (ValueOf val)) = false ->
  exists (q : addr) (m2 : memory),
    heap m2
    = heap (mem w)
      ++ [mkError "cast to eros.Error"
            (ForeignPtr reflect_ValueError (Some 0%nat) nil_error) None 1]
    /\ heap m2 !! q
       = Some (mkError "cast to eros.Error"
                 (ForeignPtr reflect_ValueError (Some 0%nat) nil_error) None 1)
    /\ defer_recover (ErrorHandler handler)
         (liftM (CheckNotNil val message)) w
       = (match fst (handler (Some q) m2) with
          | Done _ => Done None
          | Abort v => Abort v
          | Fault f => Fault f
          end,
          mkWorld (snd (handler (Some q) m2)) (calls w ++ [Some q])).
Proof.
  intros Hk.
  assert (E : CheckNotNil val message (mem w) = (Abort ValueError_panic, mem w)).
  { unfold CheckNotNil, IsNil. unfold_monad.
    by destruct (vkind (ValueOf val)). }
  set (cell := mkError "cast to eros.Error"
                 (ForeignPtr reflect_ValueError (Some 0%nat) nil_error) None 1).
  exists (length (heap (mem w))),
    (mkMemory (heap (mem w) ++ [cell]) (vars (mem w))).
  split; [reflexivity|]. split; [apply lookup_fresh|].
  unfold defer_recover, liftM. rewrite E.
  unfold ValueError_panic, ErrorHandler, call. unfold_monad.
  cbn [mem calls].
  rewrite (CastOrWrap_wrapper
             (ForeignPtr reflect_ValueError (Some 0%nat) nil_error)
             (mem w) eq_refl).
  cbn [mem calls]. fold cell. by destruct (handler _ _) as [[| |] ?].
Qed.

(** X17.  What the handler of [ErrorHandler] receives after [CheckVal]
    panicked on an error is the coercion of that error itself, not a
    wrapper around the panic value: a copy of the struct for a [*Error],
    and for a foreign error a wrapper whose Unwrap is the error. *)
Theorem CheckVal_handler_receives ms (T : Type) (v : T) (err : error)
    (x : Error) (handler : Handler) (w : world) :
  is_nil err = false ->
  coerced (heap (mem w)) err = Done x ->
  exists (q : addr) (m2 : memory),
    heap m2 !! q = Some x
    /\ (wrapped_by_cast err = true ->
        Unwrap ms (heap m2) (PtrError (Some q)) = Done err)
    /\ defer_recover (ErrorHandler handler) (liftM (CheckVal v err)) w
       = (match fst (handler (Some q) m2) with
          | Done _ => Done None
          | Abort v => Abort v
          | Fault f => Fault f
          end,
          mkWorld (snd (handler (Some q) m2)) (calls w ++ [Some q])).
Proof.
  intros Hnil Hx.
  set (p := length (heap (mem w))).
  set (m1 := mkMemory (heap (mem w) ++ [x]) (vars (mem w))).
  assert (Hp : heap m1 !! p = Some x) by apply lookup_fresh.
  pose proof (CastOrWrap_coerced _ _ _ Hx) as E1. fold p m1 in E1.
  pose proof (CastOrWrap_coerced _ _ _ (coerced_PtrError _ _ _ Hp)) as E2.
  exists (length (heap m1)), (mkMemory (heap m1 ++ [x]) (vars m1)).
  split; [apply lookup_fresh|]. split.
  - intros Hw. cbn [heap].
    rewrite (Unwrap_PtrError _ _ _ (lookup_fresh (heap m1) x)).
    pose proof (CastOrWrap_wrapper err (mem w) Hw) as E1'.
    rewrite E1 in E1'. injection E1' as E1'.
    apply app_inj_tail in E1' as [_ ->]. done.
  - unfold defer_recover, liftM, CheckVal, Result_Check.
    unfold_monad. cbn [Err Value]. rewrite Hnil. cbn. rewrite E1.
    unfold ErrorHandler, call. unfold_monad. cbn [mem calls].
    rewrite E2. cbn [mem calls]. by destruct (handler _ _) as [[| |] ?].
Qed.

(** X18.  [As] checks its target before it looks at the error.  On a nil
    error it returns false at once, whatever the fuel, and writes nothing,
    for every target it accepts: a pointer that is not nil to an interface
    type or to a type that implements error.  For every other target it
    panics with a string, as it does on any error. *)
Theorem As_nil_error ms (n : nat) (tgt : target) (m : memory) :
  (refused_target tgt = false -> As ms n nil_error tgt m = (Done false, m))
  /\ (refused_target tgt = true ->
      exists s : string,
        As ms n nil_error tgt m = (Abort (AnyVal (VString s)), m)).
Proof.
  destruct tgt as [|k|T [l|]]; cbn [refused_target];
    (split; [try done|try (intros _; eexists; reflexivity)]).
  - unfold As. intros ->. by destruct n.
  - unfold As. intros ->. eexists. reflexivity.
Qed.

(** ** Rendering *)

(** X19.  The [*Error] that [CastOrWrap] makes of a nil [*Error] cannot be
    rendered: its cause is the nil pointer, and Error(), a value method,
    panics on it. *)
Theorem Error_of_wrapped_nil_pointer (text : error -> res string) (n : nat)
    (m : memory) :
  exists (q : addr) (x : Error) (m' : memory),
    CastOrWrap (PtrError None) m = (Done q, m')
    /\ heap m' !! q = Some x
    /\ Error_Error text (S n) (heap m') x = Abort nil_dereference_panic.
Proof.
  pose proof (CastOrWrap_wrapper (PtrError None) m eq_refl) as E.
  eexists. eexists. eexists. split; [exact E|]. cbn [heap].
  split; [apply lookup_fresh|reflexivity].
Qed.

Lemma Error_Error_S (text : error -> res string) (n : nat) (h : list Error)
    (s : string) (nx : option addr) (k : Z) :
  Error_Error text (S n) h (mkError s nil_error nx k)
  = match (match nx with
           | Some q =>
               match load h q with
               | Done x => Error_Error text n h x
               | Abort v => Abort v
               | Fault f => Fault f
               end
           | None => Done ""
           end) with
    | Done c =>
        Done (" " +:+ s +:+ " (cause count " +:+ pretty k +:+ ")"
              +:+ newline +:+ c)
    | Abort v => Abort v
    | Fault f => Fault f
    end.
Proof.
  cbn [Error_Error next cause msg count]. unfold_monad.
  destruct nx as [q|]; [|done].
  destruct (load h q) as [x| |]; [|done..].
  by destruct (Error_Error text n h x).
Qed.

(** X20.  Error() on a chain of leaf structs renders every struct of the
    chain in the order Unwrap yields them, each with its message and its
    count; a leaf made by [New] renders as its message with count 0. *)
Theorem Error_renders_chain (text : error -> res string) (h : list Error)
    (p : addr) (x : Error) (ss : list string) (n : nat) :
  stack h (Some p) ss -> h !! p = Some x ->
  Error_Error text (length ss + n) h x = Done (render ss).
Proof.
  intros Hs. remember (Some p) as o eqn:Ho. revert p x Ho.
  induction Hs as [|b s nx rest Hb Hrest IH]; intros p x [= <-] Hx.
  rewrite Hb in Hx. injection Hx as <-.
  cbn [length Nat.add render]. rewrite Error_Error_S.
  inversion Hrest as [|q t nxq rest' Hq Hrest']; subst; [done|].
  unfold load. rewrite Hq. by rewrite (IH q _ eq_refl Hq).
Qed.

(** X21.  Error() follows [next] and the cause, so on the cycle that
    [e := New(s); w := Wrap(e, t); e.WithCause(w)] closes it does not
    return, whatever the fuel. *)
Theorem Error_on_cycle (text : error -> res string) ms (n : nat) (s t : string)
    (m : memory) :
  exists (e : addr) (x : Error) (m' : memory),
    wrap_and_attach ms (3 + n) s t m = (Done (Some e), m')
    /\ heap m' !! e = Some x
    /\ forall k : nat, Error_Error text k (heap m') x = Fault OutOfFuel.
Proof.
  destruct (wrap_and_attach_result ms n s t m) as (m' & E & He & Hv).
  eexists. eexists. exists m'. split; [exact E|]. split; [exact He|].
  intros k.
  enough (Error_Error text k (heap m')
            (mkError s nil_error (Some (S (S (length (heap m))))) 2)
          = Fault OutOfFuel
          /\ Error_Error text k (heap m')
               (mkError t (PtrError (Some (length (heap m)))) None 1)
             = Fault OutOfFuel) by tauto.
  induction k as [|k [IHe IHv]]; [done|].
  split.
  - rewrite Error_Error_S. unfold load. by rewrite Hv, IHv.
  - cbn [Error_Error next cause]. unfold_monad. unfold load.
    by rewrite He, IHe.
Qed.

(** X22.  An [Error] value, unlike a [*Error], has no Unwrap method: [Is]
    finds the wrapped cause from the pointer and not from the struct it
    points to. *)
Theorem Is_Error_value_does_not_unwrap ms (n : nat) (h : list Error)
    (p : addr) (x : Error) :
  h !! p = Some x -> next x = None ->
  identity_comparable ms (cause x) = true ->
  Is ms (S (S n)) h (PtrError (Some p)) (cause x) = Done true
  /\ Is ms (S n) h (ValError x) (cause x) = Done false.
Proof.
  intros Hp Hn Hid. destruct (identity_Comparable _ _ Hid) as (t & Ht & Hc).
  assert (Hnil : is_nil (cause x) = false) by by destruct (cause x).
  unfold Is. rewrite Ht. split.
  - rewrite Is_loop_S, Hc.
    destruct (@equal_PtrError_l ms (Some p) (cause x)) as [[|] ->]; [done|].
    replace (asserts (PtrError (Some p)) MIs) with false by done.
    cbn [andb]. rewrite (Unwrap_PtrError _ _ _ Hp), Hn, Hnil.
    by rewrite Is_loop_S, (equal_identity _ _ Hid).
  - rewrite Is_loop_S, Hc.
    replace (equal ms (ValError x) (cause x)) with (Done false : res bool)
      by (unfold equal; by destruct (cause x)).
    done.
Qed.

(** ** Instances of the further properties *)

Lemma Is_reflexive_witness :
  Is no_methods 1 [] (PtrError (Some 0%nat)) (PtrError (Some 0%nat))
  = Done true.
Proof. exact (Is_reflexive no_methods 0 [] (PtrError (Some 0%nat)) eq_refl). Defined.

Lemma Is_uncomparable_self_witness :
  Is no_methods 1 [] (ForeignVal Samples.errs 0 nil_error)
    (ForeignVal Samples.errs 0 nil_error) = Done false.
Proof.
  exact (Is_uncomparable_self no_methods 0 [] Samples.errs 0 nil_error
           eq_refl eq_refl eq_refl).
Defined.

Lemma Is_nil_witness :
  Is no_methods 0 [] (errors_New 1) nil_error = Done false
  /\ Is no_methods 1 [] nil_error (errors_New 1) = Done false.
Proof. exact (proj2 (Is_nil no_methods 0 [] (errors_New 1)) eq_refl). Defined.

Lemma Is_pointer_target_no_panic_witness :
  Is no_methods 3 (heap globals) (ForeignPtr withStack None NewErrorInstance)
    NewErrorInstance = Abort memoryError
  /\ exists x : error,
       foreign x = true
       /\ (asserts x MIs = true
           /\ method_Is no_methods x NewErrorInstance = Abort memoryError
           \/ asserts x MUnwrap = true
              /\ method_Unwrap no_methods x = Abort memoryError).
Proof.
  split; [reflexivity|].
  exact (Is_pointer_target_no_panic no_methods 3 (heap globals)
           (ForeignPtr withStack None NewErrorInstance) NewErrorInstance
           memoryError eq_refl eq_refl).
Defined.

Lemma Is_Error_values_panic_witness :
  Is no_methods 1 []
    (ValError (mkError "m" (ForeignVal Samples.errs 0 nil_error) None 1))
    (ValError (mkError "m" (ForeignVal Samples.errs 0 nil_error) None 1))
  = Abort uncomparable_panic.
Proof.
  exact (Is_Error_values_panic no_methods 0 [] "m" Samples.errs 0 0
           nil_error nil_error None None 1 1 eq_refl).
Defined.

Lemma Is_survives_wraps_witness :
  Is no_methods 3
    (heap (snd (Wrap_times ["a"; "b"] (errors_New 1) empty)))
    (PtrError (Some 1%nat)) (errors_New 1) = Done true.
Proof.
  exact (Is_survives_wraps no_methods ["a"; "b"] (errors_New 1)
           (PtrError (Some 1%nat)) empty
           (snd (Wrap_times ["a"; "b"] (errors_New 1) empty)) 0
           eq_refl eq_refl).
Defined.

Lemma dereference_idempotent_witness :
  dereference (heap globals)
    (ValError (mkError "This is an eros Error" nil_error None 0))
  = Done (ValError (mkError "This is an eros Error" nil_error None 0))
  /\ (forall p : addr,
        ValError (mkError "This is an eros Error" nil_error None 0)
        <> PtrError (Some p))
  /\ is_nil (ValError (mkError "This is an eros Error" nil_error None 0))
     = is_nil NewErrorInstance.
Proof.
  exact (dereference_idempotent (heap globals) NewErrorInstance
           (ValError (mkError "This is an eros Error" nil_error None 0))
           eq_refl).
Defined.

Lemma CastOrWrap_copy_is_independent_witness :
  4%nat <> 0%nat
  /\ heap (snd (CastOrWrap NewErrorInstance globals)) !! 4%nat
     = Some (mkError "This is an eros Error" nil_error None 0)
  /\ heap (snd (WithCause no_methods 3 (Some 4%nat) (errors_New 9)
                  (snd (CastOrWrap NewErrorInstance globals)))) !! 0%nat
     = Some (mkError "This is an eros Error" nil_error None 0).
Proof.
  exact (CastOrWrap_copy_is_independent no_methods 3 0%nat 4%nat
           (mkError "This is an eros Error" nil_error None 0) (errors_New 9)
           globals (snd (CastOrWrap NewErrorInstance globals))
           (snd (WithCause no_methods 3 (Some 4%nat) (errors_New 9)
                   (snd (CastOrWrap NewErrorInstance globals))))
           (Some 4%nat) eq_refl eq_refl eq_refl).
Defined.

Lemma CastOrWrap_wraps_witness :
  CastOrWrap nil_error empty
  = (Done 0%nat,
     mkMemory [mkError "cast to eros.Error" nil_error None 1] [])
  /\ Unwrap no_methods [mkError "cast to eros.Error" nil_error None 1]
       (PtrError (Some 0%nat)) = Done nil_error.
Proof. exact (CastOrWrap_wraps no_methods nil_error empty eq_refl). Defined.

Lemma WithCause_writes_only_receiver_witness :
  (length (heap one_cause_and_c)
   <= length (heap (snd (WithCause no_methods 5 (Some 0%nat)
                           (PtrError (Some 3%nat)) one_cause_and_c))))%nat
  /\ vars (snd (WithCause no_methods 5 (Some 0%nat) (PtrError (Some 3%nat))
                  one_cause_and_c)) = vars one_cause_and_c
  /\ (forall (a : addr) (x : Error),
        heap one_cause_and_c !! a = Some x -> Some 0%nat <> Some a ->
        heap (snd (WithCause no_methods 5 (Some 0%nat) (PtrError (Some 3%nat))
                     one_cause_and_c)) !! a = Some x).
Proof.
  exact (WithCause_writes_only_receiver no_methods 5 (Some 0%nat)
           (PtrError (Some 3%nat)) one_cause_and_c
           (snd (WithCause no_methods 5 (Some 0%nat) (PtrError (Some 3%nat))
                   one_cause_and_c)) (Some 0%nat) eq_refl).
Defined.

Lemma WithCause_nil_receiver_forgets_witness :
  exists (q : addr) (m1 m2 : memory),
    WithCause no_methods 1 None NewErrorInstance globals
    = (Done (Some q), m1)
    /\ q <> 0%nat
    /\ Is no_methods 1 (heap m1) (PtrError (Some q)) NewErrorInstance
       = Done false
    /\ WithCause no_methods 2 (Some q) NewErrorInstance m1
       = (Done (Some q), m2)
    /\ heap m2 !! q
       = Some (mkError "This is an eros Error" nil_error (Some (S q)) 1)
    /\ heap m2 !! S q
       = Some (mkError "This is an eros Error" nil_error None 0).
Proof.
  exact (WithCause_nil_receiver_forgets no_methods 0 0 0%nat
           "This is an eros Error" globals eq_refl).
Defined.

Lemma WithCause_closes_cycle_witness :
  Is no_methods 7
    (heap (snd (wrap_and_attach no_methods 3 "e" "x" globals)))
    (PtrError (Some 4%nat)) NewErrorInstance = Fault OutOfFuel.
Proof.
  destruct (WithCause_closes_cycle no_methods 0 "e" "x" globals)
    as (e & v & m' & E & _ & _ & _ & H).
  cbv in E. injection E as <- <-.
  exact (H 7%nat 0%nat ltac:(cbn; lia)).
Defined.

Lemma WithCause_hides_cause_witness :
  exists (p : addr) (m1 m2 : memory),
    Wrap (errors_New 1) "ctx" empty = (Done p, m1)
    /\ Is no_methods 2 (heap m1) (PtrError (Some p)) (errors_New 1)
       = Done true
    /\ WithCause no_methods 3 (Some p) (errors_New 3) m1
       = (Done (Some p), m2)
    /\ cause <$> heap m2 !! p = Some (errors_New 1)
    /\ Is no_methods 3 (heap m2) (PtrError (Some p)) (errors_New 1)
       = Done false.
Proof.
  exact (WithCause_hides_cause no_methods 0 "ctx" (errors_New 1)
           (errors_New 3) empty eq_refl eq_refl eq_refl eq_refl eq_refl).
Defined.

Lemma attach_News_newest_first_witness :
  exists (p : addr) (x : Error) (m' : memory),
    (p ← New "a"; attach_News no_methods 4 p ["b"; "c"];; mret p) empty
    = (Done p, m')
    /\ heap m' !! p = Some x
    /\ Count x = 2
    /\ next_msgs 3 (heap m') (Some p) = ["a"; "c"; "b"].
Proof.
  apply (attach_News_newest_first no_methods 4 "a" ["b"; "c"] empty);
    [cbn; lia|reflexivity].
Defined.

Lemma ErrorHandler_passes_through_witness :
  exists s : string,
    As no_methods 3 (errors_New 1) (TargetPtr (TNamed fundamental) (Some 0%nat))
      empty
    = (Abort (AnyVal (VString s)), empty)
    /\ defer_recover (ErrorHandler quiet)
         (liftM (As no_methods 3 (errors_New 1)
                   (TargetPtr (TNamed fundamental) (Some 0%nat))))
         (mkWorld empty [])
       = (Abort (AnyVal (VString s)), mkWorld empty []).
Proof.
  exact (ErrorHandler_passes_through no_methods quiet 3 (errors_New 1)
           (TargetPtr (TNamed fundamental) (Some 0%nat)) (mkWorld empty [])
           eq_refl).
Defined.

Lemma ErrorHandler_catches_reflection_witness :
  exists (q : addr) (m2 : memory),
    heap m2
    = [mkError "cast to eros.Error"
         (ForeignPtr reflect_ValueError (Some 0%nat) nil_error) None 1]
    /\ heap m2 !! q
       = Some (mkError "cast to eros.Error"
                 (ForeignPtr reflect_ValueError (Some 0%nat) nil_error) None 1)
    /\ defer_recover (ErrorHandler quiet) (liftM (CheckNotNil 5 "five"))
         (mkWorld empty [])
       = (Done None, mkWorld m2 [Some q]).
Proof.
  exact (@ErrorHandler_catches_reflection Z Reflect_int 5 "five" quiet
           (mkWorld empty []) eq_refl).
Defined.

Lemma CheckVal_handler_receives_witness :
  exists (q : addr) (m2 : memory),
    heap m2 !! q = Some (mkError "cast to eros.Error" (errors_New 1) None 1)
    /\ (wrapped_by_cast (errors_New 1) = true ->
        Unwrap no_methods (heap m2) (PtrError (Some q)) = Done (errors_New 1))
    /\ defer_recover (ErrorHandler quiet)
         (liftM (CheckVal 0 (errors_New 1))) (mkWorld empty [])
       = (Done None, mkWorld m2 [Some q]).
Proof.
  exact (CheckVal_handler_receives no_methods Z 0 (errors_New 1)
           (mkError "cast to eros.Error" (errors_New 1) None 1) quiet
           (mkWorld empty []) eq_refl eq_refl).
Defined.

Lemma As_nil_error_witness :
  As no_methods 0 nil_error (TargetPtr TError (Some 0%nat)) empty
  = (Done false, empty)
  /\ exists s : string,
       As no_methods 0 nil_error (TargetPtr (TNamed fundamental) (Some 0%nat))
         empty
       = (Abort (AnyVal (VString s)), empty).
Proof.
  split.
  - exact (proj1 (As_nil_error no_methods 0 (TargetPtr TError (Some 0%nat))
                    empty) eq_refl).
  - exact (proj2 (As_nil_error no_methods 0
                    (TargetPtr (TNamed fundamental) (Some 0%nat)) empty)
             eq_refl).
Defined.

Lemma Error_renders_chain_witness :
  Error_Error Samples.foreign_text 3 Samples.three_links
    (mkError "a" nil_error (Some 1%nat) 2)
  = Done (" a (cause count 2)" +:+ newline
          +:+ " c (cause count 1)" +:+ newline
          +:+ " b (cause count 0)" +:+ newline).
Proof.
  apply (Error_renders_chain Samples.foreign_text Samples.three_links 0%nat _
           ["a"; "c"; "b"] 0).
  - apply (stack_cons _ 0%nat "a" (Some 1%nat) ["c"; "b"]); [reflexivity|].
    apply (stack_cons _ 1%nat "c" (Some 2%nat) ["b"]); [reflexivity|].
    apply (stack_cons _ 2%nat "b" None []); [reflexivity|constructor].
  - reflexivity.
Defined.

Lemma Is_Error_value_does_not_unwrap_witness :
  Is no_methods 2 Samples.wrapper (PtrError (Some 0%nat)) (errors_New 1)
  = Done true
  /\ Is no_methods 1 Samples.wrapper
       (ValError (mkError "w" (errors_New 1) None 1)) (errors_New 1)
     = Done false.
Proof.
  exact (Is_Error_value_does_not_unwrap no_methods 0 Samples.wrapper 0%nat
           (mkError "w" (errors_New 1) None 1) eq_refl eq_refl eq_refl).
Defined.
